(** * The Hetzner node group and the GCE kube-env reader of cluster-autoscaler

    A shallow embedding of
    [cluster-autoscaler/cloudprovider/hetzner/hetzner_node_group.go] and
    [cluster-autoscaler/cloudprovider/gce/kube_env.go].

    - Go's [int] is a 64-bit two's complement integer: a [Z] with the
      wrap-around written out ([GoInt]).
    - A Go [error] is [option error], [None] being [nil]; a pointer the code
      tests against [nil] is an [option].
    - The manager ([*hetznerManager]), the hcloud client and the caches are
      not part of the files embedded here: the node group only sees their
      answers, so the manager is a record of answers ([hetznerManager]), and
      every call made to it is recorded as an [event].
    - The goroutines of [IncreaseSize] and [DeleteNodes] are a pool of small
      state machines run by a schedule; [targetSize--] is the read and the
      write it is in Go, two steps of the goroutine that executes it. *)

From Stdlib Require Import ZArith Lia.
From stdpp Require Import base list strings gmap pretty.

Open Scope Z_scope.

(** ** Go's [int] *)

Module GoInt.

Definition int_bits : Z := 64.
Definition min_int : Z := - 2 ^ (int_bits - 1).
Definition max_int : Z := 2 ^ (int_bits - 1) - 1.

(** The representative of [z] modulo [2 ^ int_bits] in
    [min_int .. max_int]. *)
Definition wrap (z : Z) : Z := (z - min_int) `mod` 2 ^ int_bits + min_int.

Definition in_range (z : Z) : Prop := min_int ≤ z ≤ max_int.

Definition add (a b : Z) : Z := wrap (a + b).
Definition sub (a b : Z) : Z := wrap (a - b).
Definition neg (a : Z) : Z := wrap (- a).

(** [len(s)] of a slice. *)
Definition len {A} (s : list A) : Z := Z.of_nat (length s).

End GoInt.

(** ** The parts of hcloud-go the node group reads

  The declarations are those of the vendored [hcloud] package; only the
  fields the node group touches are kept. *)

Module Hcloud.

(** [hcloud.ServerStatus] is a string type; these are its constants. *)
Definition ServerStatus := string.
Definition ServerStatusInitializing : ServerStatus := "initializing".
Definition ServerStatusOff : ServerStatus := "off".
Definition ServerStatusRunning : ServerStatus := "running".
Definition ServerStatusStarting : ServerStatus := "starting".
Definition ServerStatusStopping : ServerStatus := "stopping".
Definition ServerStatusMigrating : ServerStatus := "migrating".
Definition ServerStatusRebuilding : ServerStatus := "rebuilding".
Definition ServerStatusDeleting : ServerStatus := "deleting".
Definition ServerStatusUnknown : ServerStatus := "unknown".

Record Location := { Location_Name : string }.

(** [ServerTypeLocationPricing]: the price of a server type in one
    location. *)
Record ServerTypeLocationPricing := { Pricing_Location : Location }.

Record ServerType := {
  ServerType_Name : string;
  Pricings : list ServerTypeLocationPricing
}.

Record Server := {
  Server_ID : Z;
  Server_Name : string;
  Server_Status : ServerStatus
}.

Record Action := { Action_ID : Z }.

Record ServerCreateResult := {
  Result_Server : Server;
  Result_Action : Action
}.

(** The options [createServer] fills in that identify the request: the
    location, the server type and the node group label. *)
Record ServerCreateOpts := {
  Opts_Location : Location;
  Opts_ServerType : string;
  Opts_GroupLabel : string
}.

End Hcloud.

(** ** The parts of package [cloudprovider] the node group produces *)

Module Cloudprovider.

(** [InstanceState] is an [int] type whose named values start at 1; its
    zero value is none of them. *)
Definition InstanceState := Z.
Definition InstanceRunning : InstanceState := 1.
Definition InstanceCreating : InstanceState := 2.
Definition InstanceDeleting : InstanceState := 3.

Definition InstanceErrorClass := Z.
Definition OutOfResourcesErrorClass : InstanceErrorClass := 1.
Definition OtherErrorClass : InstanceErrorClass := 99.

Record InstanceErrorInfo := {
  ErrorClass : InstanceErrorClass;
  ErrorCode : string;
  ErrorMessage : string
}.

Record InstanceStatus := {
  State : InstanceState;
  ErrorInfo : option InstanceErrorInfo
}.

Record Instance := {
  Id : string;
  Status : option InstanceStatus
}.

End Cloudprovider.

(** ** hetzner_node_group.go *)

Module Hetzner.
Import GoInt Hcloud Cloudprovider.

(** [hetznerNodeGroup]. The [manager] field is the [hetznerManager] the
    operations below take as an argument; [clusterUpdateMutex] shows as the
    [EvLock] and [EvUnlock] events. *)
Record hetznerNodeGroup := {
  id : string;
  minSize : Z;
  maxSize : Z;
  targetSize : Z;
  region : string;
  instanceType : string
}.

Definition set_targetSize (v : Z) (n : hetznerNodeGroup) : hetznerNodeGroup :=
  {| id := id n; minSize := minSize n; maxSize := maxSize n;
     targetSize := v; region := region n; instanceType := instanceType n |}.

(** [apiv1.Node]: the node group only reads its name. *)
Record Node := { Node_Name : string }.

(** The error values: those the collaborators hand back, and one
    constructor for each [fmt.Errorf] of the file, with its arguments. *)
Inductive error :=
| ProviderError (msg : string)
| ErrDeltaNotPositive (delta : Z)
| ErrIncreaseTooLarge (current desired max : Z)
| ErrTypeCheckFailed (type reg : string) (cause : error)
| ErrTypeNotAvailable (type reg : string)
| ErrDecreaseTooLarge (current desired min : Z)
| ErrCouldNotCreate (type reg : string) (cause : error)
| ErrFailedToStart (serverName : string) (cause : error)
| ErrWaitingForAction (serverName : string) (cause : error)
| ErrWaitTimeout (serverName : string).

(** What the errors channel of [WatchProgress] does first, and when
    (time counted from the moment [select] starts to wait): a value is
    sent, the channel is closed, or nothing ever happens. *)
Inductive errChan :=
| ChanSend (at_ : Z) (v : option error)
| ChanClose (at_ : Z)
| ChanSilent.

(** The calls the node group makes to its collaborators. *)
Inductive event :=
| EvLock
| EvUnlock
| EvGetServerType (name : string)
| EvServerCreate (i : nat) (opts : ServerCreateOpts)
| EvWatchProgress (a : Action)
| EvDeleteServer (s : Server)
| EvDeleteByNode (node : Node)
| EvServers
| EvAllServers (group : string).

(** The answers of the manager during one operation. A lookup of a server
    type that returns no error returns the type. [serverCreate] is asked
    once by each goroutine of [IncreaseSize], whose number selects the
    answer. [watchProgress] is what the errors channel of an action does,
    and a [selectTie] of [true] lets [select] take that channel when both
    of its cases are ready at once. [servers] is the refresh of the server
    cache, [allServers] the listing of a node group's servers. *)
Record hetznerManager := {
  getServerType : string → ServerType + error;
  serverCreate : nat → ServerCreateOpts → ServerCreateResult + error;
  watchProgress : Action → errChan;
  selectTie : Action → bool;
  createTimeout : Z;
  deleteServer : Server → option error;
  deleteByNode : Node → option error;
  servers : list Server + error;
  allServers : string → list Server + error
}.

(** What a call hands back: the error, the node group as the call leaves
    it, and the calls it made to the collaborators, in order. *)
Record outcome := {
  ret : option error;
  group : hetznerNodeGroup;
  events : list event
}.

Definition MaxSize (n : hetznerNodeGroup) : Z := maxSize n.
Definition MinSize (n : hetznerNodeGroup) : Z := minSize n.
Definition TargetSize (n : hetznerNodeGroup) : Z * option error :=
  (targetSize n, None).

(** The target size lies within the bounds of the pool. *)
Definition within_bounds (n : hetznerNodeGroup) : Prop :=
  minSize n ≤ targetSize n ≤ maxSize n.

(** A pool within its bounds, the bounds being values of Go's [int]. *)
Definition valid_pool (n : hetznerNodeGroup) : Prop :=
  in_range (minSize n) ∧ in_range (maxSize n) ∧ within_bounds n.

(** *** [toInstanceStatus] *)

Definition toInstanceStatus (status : ServerStatus) : option InstanceStatus :=
  if String.eqb status "" then None
  else
    let st := {| State := 0; ErrorInfo := None |} in
    Some
      (if String.eqb status ServerStatusInitializing then st
       else if String.eqb status ServerStatusStarting then
         {| State := InstanceCreating; ErrorInfo := ErrorInfo st |}
       else if String.eqb status ServerStatusRunning then
         {| State := InstanceRunning; ErrorInfo := ErrorInfo st |}
       else if String.eqb status ServerStatusOff then st
       else if String.eqb status ServerStatusDeleting then st
       else if String.eqb status ServerStatusStopping then
         {| State := InstanceDeleting; ErrorInfo := ErrorInfo st |}
       else
         {| State := State st;
            ErrorInfo := Some {| ErrorClass := OtherErrorClass;
                                 ErrorCode := "no-code-hcloud";
                                 ErrorMessage := "error" |} |}).

(** The statuses the [switch] of [toInstanceStatus] has a case for. *)
Definition handled_statuses : list ServerStatus :=
  [ServerStatusInitializing; ServerStatusStarting; ServerStatusRunning;
   ServerStatusOff; ServerStatusDeleting; ServerStatusStopping].

(** *** [serverTypeAvailable] *)

(** The loop over [serverType.Pricings]. *)
Fixpoint pricedIn (reg : string) (pricings : list ServerTypeLocationPricing) : bool :=
  match pricings with
  | [] => false
  | price :: rest =>
      if String.eqb (Location_Name (Pricing_Location price)) reg then true
      else pricedIn reg rest
  end.

Definition serverTypeAvailable (m : hetznerManager) (type reg : string)
  : list event * (bool * option error) :=
  match getServerType m type with
  | inr err => ([EvGetServerType type], (false, Some err))
  | inl serverType => ([EvGetServerType type], (pricedIn reg (Pricings serverType), None))
  end.

(** *** [waitForServerAction] *)

Inductive selected :=
| SelErrChan (v : option error)
| SelTimer.

(** [select] over the errors channel and [time.After timeout]: the case
    that is ready first runs; a case whose time is not positive is ready
    at once. Receiving from a closed channel yields the zero value,
    [nil]. *)
Definition select (tie : bool) (c : errChan) (timeout : Z) : selected :=
  let pick (at_ : Z) (v : option error) :=
    match Z.max 0 at_ ?= Z.max 0 timeout with
    | Lt => SelErrChan v
    | Gt => SelTimer
    | Eq => if tie then SelErrChan v else SelTimer
    end in
  match c with
  | ChanSend at_ v => pick at_ v
  | ChanClose at_ => pick at_ None
  | ChanSilent => SelTimer
  end.

(** The channel event of time [at_] is ready before the timer of [timeout]
    fires, respectively only after it fired. *)
Definition before_timeout (at_ timeout : Z) : Prop := Z.max 0 at_ < Z.max 0 timeout.
Definition after_timeout (at_ timeout : Z) : Prop := Z.max 0 timeout < Z.max 0 at_.

(** The errors channel does nothing before the timer fires. *)
Definition quiet_until_timeout (c : errChan) (timeout : Z) : Prop :=
  match c with
  | ChanSend at_ _ | ChanClose at_ => after_timeout at_ timeout
  | ChanSilent => True
  end.

Definition waitForServerAction (m : hetznerManager) (serverName : string) (action : Action)
  : list event * option error :=
  let errCh := watchProgress m action in
  ([EvWatchProgress action],
   match select (selectTie m action) errCh (createTimeout m) with
   | SelErrChan (Some err) => Some (ErrWaitingForAction serverName err)
   | SelErrChan None => None
   | SelTimer => Some (ErrWaitTimeout serverName)
   end).

(** *** [createServer], as run by goroutine [i] *)

Definition createOpts (n : hetznerNodeGroup) : ServerCreateOpts :=
  {| Opts_Location := {| Location_Name := region n |};
     Opts_ServerType := instanceType n;
     Opts_GroupLabel := id n |}.

Definition createServer (m : hetznerManager) (n : hetznerNodeGroup) (i : nat)
  : list event * option error :=
  let opts := createOpts n in
  match serverCreate m i opts with
  | inr err =>
      ([EvServerCreate i opts],
       Some (ErrCouldNotCreate (instanceType n) (region n) err))
  | inl serverCreateResult =>
      let action := Result_Action serverCreateResult in
      let server := Result_Server serverCreateResult in
      let '(evs, err) := waitForServerAction m (Server_Name server) action in
      match err with
      | Some err =>
          let _ := deleteServer m server in
          (EvServerCreate i opts :: evs ++ [EvDeleteServer server],
           Some (ErrFailedToStart (Server_Name server) err))
      | None => (EvServerCreate i opts :: evs, None)
      end
  end.

(** *** The goroutines *)

(** Where a goroutine stands: not started; its work failed and it is about
    to read the shared [targetSize]; it has read [v] and is about to write
    [v - 1]; it has called [waitGroup.Done]. *)
Inductive goroutine :=
| GoStart
| GoLoad
| GoStore (v : Z)
| GoDone.

Definition is_done (g : goroutine) : bool :=
  match g with GoDone => true | _ => false end.

(** The state shared by the goroutines of one call: the captured local
    variable [targetSize], the goroutines, and the calls made so far. *)
Record fanout := {
  shared : Z;
  pool : list goroutine;
  trace : list event
}.

(** One step of goroutine [i] of [IncreaseSize]. *)
Definition step_create (m : hetznerManager) (n : hetznerNodeGroup) (i : nat) (c : fanout)
  : fanout :=
  match pool c !! i with
  | Some GoStart =>
      let '(evs, err) := createServer m n i in
      {| shared := shared c;
         pool := <[i := match err with Some _ => GoLoad | None => GoDone end]> (pool c);
         trace := trace c ++ evs |}
  | Some GoLoad =>
      {| shared := shared c;
         pool := <[i := GoStore (shared c)]> (pool c);
         trace := trace c |}
  | Some (GoStore v) =>
      {| shared := sub v 1;
         pool := <[i := GoDone]> (pool c);
         trace := trace c |}
  | Some GoDone | None => c
  end.

(** One step of goroutine [i] of [DeleteNodes]: it deletes the [i]-th
    node; an error is logged only. *)
Definition step_delete (m : hetznerManager) (nodes : list Node) (i : nat) (c : fanout)
  : fanout :=
  match pool c !! i, nodes !! i with
  | Some GoStart, Some node =>
      let _ := deleteByNode m node in
      {| shared := shared c;
         pool := <[i := GoDone]> (pool c);
         trace := trace c ++ [EvDeleteByNode node] |}
  | _, _ => c
  end.

(** A schedule names the goroutine that takes each step. *)
Definition run (step : nat → fanout → fanout) (sched : list nat) (c : fanout) : fanout :=
  foldl (λ c i, step i c) c sched.

(** [waitGroup.Wait] returns once every goroutine is done. *)
Definition all_done (c : fanout) : bool := forallb is_done (pool c).

(** *** [IncreaseSize]

    [None]: the schedule ends before every goroutine is done, so it is not
    the schedule of a call that returned. *)
Definition IncreaseSize (m : hetznerManager) (sched : list nat) (delta : Z)
    (n : hetznerNodeGroup) : option outcome :=
  if delta <=? 0 then
    Some {| ret := Some (ErrDeltaNotPositive delta); group := n; events := [] |}
  else
    let targetSize' := add (targetSize n) delta in
    if targetSize' >? MaxSize n then
      Some {| ret := Some (ErrIncreaseTooLarge (targetSize n) targetSize' (MaxSize n));
              group := n; events := [] |}
    else
      match serverTypeAvailable m (instanceType n) (region n) with
      | (evs, (_, Some err)) =>
          Some {| ret := Some (ErrTypeCheckFailed (instanceType n) (region n) err);
                  group := n; events := EvLock :: evs ++ [EvUnlock] |}
      | (evs, (false, None)) =>
          Some {| ret := Some (ErrTypeNotAvailable (instanceType n) (region n));
                  group := n; events := EvLock :: evs ++ [EvUnlock] |}
      | (evs, (true, None)) =>
          let c := run (step_create m n) sched
                     {| shared := targetSize';
                        pool := replicate (Z.to_nat delta) GoStart;
                        trace := EvLock :: evs |} in
          if all_done c then
            Some {| ret := None;
                    group := set_targetSize (shared c) n;
                    events := trace c ++ [EvServers; EvUnlock] |}
          else None
      end.

(** *** [resetTargetSize] *)

Definition resetTargetSize (m : hetznerManager) (expectedDelta : Z) (n : hetznerNodeGroup)
  : list event * hetznerNodeGroup :=
  match allServers m (id n) with
  | inr err => ([EvAllServers (id n)], set_targetSize (sub (targetSize n) expectedDelta) n)
  | inl servers' => ([EvAllServers (id n)], set_targetSize (len servers') n)
  end.

(** *** [DeleteNodes] *)

Definition DeleteNodes (m : hetznerManager) (sched : list nat) (nodes : list Node)
    (n : hetznerNodeGroup) : option outcome :=
  let targetSize' := sub (targetSize n) (len nodes) in
  if targetSize' <? MinSize n then
    Some {| ret := Some (ErrDecreaseTooLarge (targetSize n) targetSize' (MinSize n));
            group := n; events := [EvLock; EvUnlock] |}
  else
    let c := run (step_delete m nodes) sched
               {| shared := targetSize';
                  pool := replicate (length nodes) GoStart;
                  trace := [EvLock] |} in
    if all_done c then
      let '(evs, n') := resetTargetSize m (neg (len nodes)) n in
      Some {| ret := None; group := n';
              events := trace c ++ EvServers :: evs ++ [EvUnlock] |}
    else None.

(** *** [DecreaseTargetSize] *)

Definition DecreaseTargetSize (delta : Z) (n : hetznerNodeGroup) : outcome :=
  {| ret := None;
     group := set_targetSize (add (targetSize n) delta) n;
     events := [] |}.

(** *** Failures, schedules and what the goroutines keep true *)

(** Whether the [createServer] of goroutine [i] fails, and how many of the
    goroutines [first], ..., [first + count - 1] fail. *)
Definition create_fails (m : hetznerManager) (n : hetznerNodeGroup) (i : nat) : bool :=
  match (createServer m n i).2 with Some _ => true | None => false end.

Definition failures (m : hetznerManager) (n : hetznerNodeGroup) (first count : nat) : nat :=
  length (filter (λ i, create_fails m n i = true) (seq first count)).

(** The schedule that runs the goroutines [first], ..., [first + count - 1]
    one after the other, each to its end (a goroutine takes at most three
    steps). *)
Definition in_turn (first count : nat) : list nat :=
  flat_map (λ i, [i; i; i]) (seq first count).

(** The number of goroutines, the first of them being number [first], that
    fail and are done: those that have written the shared [targetSize]
    back. *)
Fixpoint stored (fails : nat → bool) (first : nat) (gs : list goroutine) : nat :=
  match gs with
  | [] => 0
  | g :: gs => (if fails first && is_done g then 1 else 0) + stored fails (S first) gs
  end%nat.

(** What every schedule keeps true of the shared [targetSize], which
    starts at [T]: only goroutines whose creation failed read or write it;
    it is [T] less some number of decrements, at most one for each
    goroutine that has written and at least one if any has; and every value
    a goroutine has read and not yet written back is [T] less at most that
    many. *)
Definition decrements_bounded (fails : nat → bool) (T : Z) (c : fanout) : Prop :=
  (∀ i g, pool c !! i = Some g → g ≠ GoStart → g ≠ GoDone → fails i = true) ∧
  (∃ d : nat, (d ≤ stored fails 0 (pool c))%nat ∧
              (0 < stored fails 0 (pool c) → 0 < d)%nat ∧
              shared c = wrap (T - Z.of_nat d)) ∧
  (∀ i v, pool c !! i = Some (GoStore v) →
          ∃ d : nat, (d ≤ stored fails 0 (pool c))%nat ∧ v = wrap (T - Z.of_nat d)).

End Hetzner.

(** ** kube_env.go *)

Module Gce.

(** The parts of [compute/v1] that [ExtractKubeEnv] reads. [Items] holds
    the items the slice points to. *)
Record MetadataItems := {
  Key : string;
  Value : option string
}.

Record Metadata := { Items : list MetadataItems }.

Record InstanceProperties := { Properties_Metadata : option Metadata }.

Record InstanceTemplate := {
  Name : string;
  Properties : option InstanceProperties
}.

Inductive error :=
| ErrTemplateNil
| ErrNoMetadata (name : string)
| ErrNoKubeEnvContent
| ErrUnmarshal (cause : string).

Definition kubeEnvKey : string := "kube-env".

(** [KubeEnv] is a [map[string]string]; [None] is the [nil] map. *)
Definition KubeEnv := option (gmap string string).

Section WithYaml.

(** [yaml.Unmarshal] into a fresh [map[string]string]: the map it
    fills, or the message of its error. *)
Variable yaml_Unmarshal : string → gmap string string + string.

Definition ParseKubeEnv (kubeEnvValue : string) : KubeEnv * option error :=
  match yaml_Unmarshal kubeEnvValue with
  | inr err => (None, Some (ErrUnmarshal err))
  | inl kubeEnv => (Some kubeEnv, None)
  end.

(** The loop of [ExtractKubeEnv] over the metadata items. *)
Fixpoint extractFromItems (items : list MetadataItems) : KubeEnv * option error :=
  match items with
  | [] => (None, None)
  | item :: rest =>
      if String.eqb (Key item) kubeEnvKey then
        match Value item with
        | None => (None, Some ErrNoKubeEnvContent)
        | Some value => ParseKubeEnv value
        end
      else extractFromItems rest
  end.

Definition ExtractKubeEnv (template : option InstanceTemplate) : KubeEnv * option error :=
  match template with
  | None => (None, Some ErrTemplateNil)
  | Some template =>
      match Properties template with
      | None => (None, Some (ErrNoMetadata (Name template)))
      | Some properties =>
          match Properties_Metadata properties with
          | None => (None, Some (ErrNoMetadata (Name template)))
          | Some metadata => extractFromItems (Items metadata)
          end
      end
  end.

End WithYaml.

Definition Var (ke : KubeEnv) (name : string) : string * bool :=
  match ke with
  | None => ("", false)
  | Some ke =>
      match ke !! name with
      | Some val => (val, true)
      | None => ("", false)
      end
  end.

End Gce.

(** ** Pools and managers to run the operations on *)

Module Examples.
Import GoInt Hcloud Cloudprovider Hetzner.

(** A pool of three servers, between one and five allowed. *)
Definition pool_a : hetznerNodeGroup :=
  {| id := "pool-a"; minSize := 1; maxSize := 5; targetSize := 3;
     region := "fsn1"; instanceType := "cx21" |}.

(** A pool of three servers with room for seven more. *)
Definition pool_b : hetznerNodeGroup :=
  {| id := "pool-b"; minSize := 0; maxSize := 10; targetSize := 3;
     region := "fsn1"; instanceType := "cx21" |}.

Definition cx21 : ServerType :=
  {| ServerType_Name := "cx21";
     Pricings := [ {| Pricing_Location := {| Location_Name := "nbg1" |} |};
                   {| Pricing_Location := {| Location_Name := "fsn1" |} |} ] |}.

(** A type that is sold in Nuremberg only. *)
Definition cx21_nbg1_only : ServerType :=
  {| ServerType_Name := "cx21";
     Pricings := [ {| Pricing_Location := {| Location_Name := "nbg1" |} |} ] |}.

Definition server (i : nat) : Server :=
  {| Server_ID := Z.of_nat i; Server_Name := "pool-a-node"; Server_Status := "running" |}.

(** A manager built from its answers: the server type (or the error of
    looking it up), the goroutines whose creation the provider refuses,
    what the errors channel of every action does within a timeout of ten
    seconds, and the listing of the pool's servers. *)
Definition manager_of (type : ServerType + error) (refused : list nat)
    (chan : errChan) (listing : list Server + error) : hetznerManager :=
  {| getServerType := λ _, type;
     serverCreate := λ i _,
       if bool_decide (i ∈ refused) then inr (ProviderError "resource_unavailable")
       else inl {| Result_Server := server i;
                   Result_Action := {| Action_ID := Z.of_nat i |} |};
     watchProgress := λ _, chan;
     selectTie := λ _, true;
     createTimeout := 10000;
     deleteServer := λ _, None;
     deleteByNode := λ _, None;
     servers := listing;
     allServers := λ _, listing |}.

(** Every call succeeds: each action closes its errors channel after one
    second, and the pool lists [listed] servers. *)
Definition manager_ok (listed : nat) : hetznerManager :=
  manager_of (inl cx21) [] (ChanClose 1000) (inl (server <$> seq 0 listed)).

(** The creations of the goroutines in [refused] fail. *)
Definition manager_failing (refused : list nat) : hetznerManager :=
  manager_of (inl cx21) refused (ChanClose 1000) (inl []).

(** The pool's servers cannot be listed. *)
Definition manager_no_list : hetznerManager :=
  manager_of (inl cx21) [] (ChanClose 1000) (inr (ProviderError "unavailable")).

(** The server type is not sold in the pool's region. *)
Definition manager_elsewhere : hetznerManager :=
  manager_of (inl cx21_nbg1_only) [] (ChanClose 1000) (inl []).

(** Each action sends [nil] on its errors channel after one second, as the
    hcloud client does for an action that succeeded. *)
Definition manager_nil_sent : hetznerManager :=
  manager_of (inl cx21) [] (ChanSend 1000 None) (inl []).

(** Each action sends an error after one second. *)
Definition manager_action_error : hetznerManager :=
  manager_of (inl cx21) [] (ChanSend 1000 (Some (ProviderError "action failed"))) (inl []).

(** No action reports within the timeout. *)
Definition manager_slow : hetznerManager :=
  manager_of (inl cx21) [] ChanSilent (inl []).

Definition node (name : string) : Node := {| Node_Name := name |}.

End Examples.

Module GceExamples.
Import Gce.

(** A template whose metadata lists the key kube-env twice: first with
    content, then with a [nil] value. *)
Definition template_kube_env_twice : InstanceTemplate :=
  {| Name := "tpl";
     Properties := Some {| Properties_Metadata := Some {| Items :=
       [ {| Key := "kube-env"; Value := Some "CLUSTER_NAME: demo" |};
         {| Key := "kube-env"; Value := None |} ] |} |} |}.

(** A template whose only kube-env item has a [nil] value, and one with no
    kube-env item. *)
Definition template_kube_env_nil : InstanceTemplate :=
  {| Name := "tpl";
     Properties := Some {| Properties_Metadata := Some {| Items :=
       [ {| Key := "cluster-name"; Value := Some "demo" |};
         {| Key := "kube-env"; Value := None |} ] |} |} |}.

Definition template_no_kube_env : InstanceTemplate :=
  {| Name := "tpl";
     Properties := Some {| Properties_Metadata := Some {| Items :=
       [ {| Key := "cluster-name"; Value := Some "demo" |} ] |} |} |}.

(** A decoder that accepts nothing. *)
Definition yaml_refusing : string → gmap string string + string :=
  λ _, inr "yaml: unsupported".

End GceExamples.

(** ** hetzner_node_group.go: instances and identity of a node group *)

Module HetznerGroup.
Import GoInt Hcloud Cloudprovider Hetzner.

(** [providerIDPrefix], a constant of hetzner_cloud_provider.go. *)
Definition providerIDPrefix : string := "hcloud://".

(** [fmt.Sprintf("%s%d", providerIDPrefix, nodeID)]: [%d] prints a decimal
    numeral, with a minus sign when negative. *)
Definition toProviderID (nodeID : Z) : string := providerIDPrefix +:+ pretty nodeID.

Definition toInstance (vm : Server) : Instance :=
  {| Id := toProviderID (Server_ID vm);
     Status := toInstanceStatus (Server_Status vm) |}.

(** The errors of the functions below: [cloudprovider.ErrNotImplemented]
    and the [fmt.Errorf] of [Nodes]. *)
Inductive groupError :=
| ErrNotImplemented
| ErrFailedToGetServers (cause : error).

(** [Nodes]. The server cache of the manager answers
    [getServersByNodeGroupName]; a [nil] slice is [None]. *)
Definition Nodes (getServersByNodeGroupName : string → list Server + error)
    (n : hetznerNodeGroup) : option (list Instance) * option groupError :=
  match getServersByNodeGroupName (id n) with
  | inr err => (None, Some (ErrFailedToGetServers err))
  | inl servers' => (Some (toInstance <$> servers'), None)
  end.

Definition Id_ (n : hetznerNodeGroup) : string := id n.

(** [Exist] and [Create] on [manager.nodeGroups], the map from the
    identifier of a node group to the node group. *)
Definition Exist (nodeGroups : gmap string hetznerNodeGroup) (n : hetznerNodeGroup) : bool :=
  match nodeGroups !! id n with
  | Some _ => true
  | None => false
  end.

Definition Create (nodeGroups : gmap string hetznerNodeGroup) (n : hetznerNodeGroup)
  : gmap string hetznerNodeGroup * (hetznerNodeGroup * option groupError) :=
  (<[id n := n]> nodeGroups, (n, Some ErrNotImplemented)).

Definition Delete (n : hetznerNodeGroup) : option groupError := None.

Definition Autoprovisioned (n : hetznerNodeGroup) : bool := false.

End HetznerGroup.

(** ** hetzner_node_group.go: the labels of a node group *)

Module HetznerLabels.
Import GoInt Hcloud Cloudprovider Hetzner.

(** [hcloud.Architecture] is a string type; these are its constants. *)
Definition Architecture := string.
Definition ArchitectureX86 : Architecture := "x86".
Definition ArchitectureARM : Architecture := "arm".

(** The label keys: three constants of [k8s.io/api/core/v1], and
    [nodeGroupLabel] of hetzner_manager.go. *)
Definition LabelInstanceType : string := "node.kubernetes.io/instance-type".
Definition LabelTopologyRegion : string := "topology.kubernetes.io/region".
Definition LabelArchStable : string := "kubernetes.io/arch".
Definition nodeGroupLabel : string := "hcloud/node-group".

Section WithArchitecture.

(** The [Architecture] field of a server type, which the record above does
    not carry. *)
Variable ServerType_Architecture : ServerType → Architecture.

Definition instanceTypeArch (m : hetznerManager) (instanceType : string)
  : string * option error :=
  match getServerType m instanceType with
  | inr err => ("", Some err)
  | inl serverType =>
      if String.eqb (ServerType_Architecture serverType) ArchitectureARM then
        ("arm64", None)
      else if String.eqb (ServerType_Architecture serverType) ArchitectureX86 then
        ("amd64", None)
      else ("amd64", None)
  end.

(** [buildNodeGroupLabels]; a [nil] map is [None]. *)
Definition buildNodeGroupLabels (m : hetznerManager) (n : hetznerNodeGroup)
  : option (gmap string string) * option error :=
  match instanceTypeArch m (instanceType n) with
  | (_, Some err) => (None, Some err)
  | (archLabel, None) =>
      (Some (<[LabelInstanceType := instanceType n]>
             (<[LabelTopologyRegion := region n]>
              (<[LabelArchStable := archLabel]>
               (<["csi.hetzner.cloud/location" := region n]>
                (<[nodeGroupLabel := id n]> ∅))))),
       None)
  end.

End WithArchitecture.

End HetznerLabels.

(** ** What a list of calls contains *)

Module Traces.
Import Hcloud Hetzner.

(** The goroutines whose create requests the calls contain, in order. *)
Definition create_requests (evs : list event) : list nat :=
  omap (λ e, match e with EvServerCreate i _ => Some i | _ => None end) evs.

(** The nodes whose deletion the calls ask for, in order. *)
Definition deleted_nodes (evs : list event) : list Node :=
  omap (λ e, match e with EvDeleteByNode node => Some node | _ => None end) evs.

(** The servers the calls delete again. *)
Definition deleted_servers (evs : list event) : list Server :=
  omap (λ e, match e with EvDeleteServer s => Some s | _ => None end) evs.

(** The calls that follow the create request of [createServer]. *)
Definition is_followup (e : event) : bool :=
  match e with EvWatchProgress _ | EvDeleteServer _ => true | _ => false end.

Definition is_lock_event (e : event) : bool :=
  match e with EvLock | EvUnlock => true | _ => false end.

(** The calls are made under the lock: it is taken first, released last,
    and not touched in between. *)
Definition under_lock (evs : list event) : Prop :=
  ∃ middle, evs = EvLock :: middle ++ [EvUnlock] ∧
            Forall (λ e, is_lock_event e = false) middle.

(** What every schedule keeps true of the calls of [IncreaseSize]: they
    start with the lock, which is not touched again; every create request
    carries the options of the pool; and the goroutines that have asked for
    a server are those that have started, each having asked once. *)
Definition creates_tracked (n : hetznerNodeGroup) (c : fanout) : Prop :=
  (∃ middle, trace c = EvLock :: middle ∧
             Forall (λ e, is_lock_event e = false) middle) ∧
  Forall (λ e, ∀ i opts, e = EvServerCreate i opts → opts = createOpts n) (trace c) ∧
  deleted_nodes (trace c) = [] ∧
  NoDup (create_requests (trace c)) ∧
  ∀ i, i ∈ create_requests (trace c) ↔ ∃ g, pool c !! i = Some g ∧ g ≠ GoStart.

(** What every schedule keeps true of the calls of [DeleteNodes]: they
    start with the lock, which is not touched again; no server is asked
    for; and the nodes whose deletion was asked for are those of the
    goroutines that are done, one request each. *)
Definition deletes_tracked (nodes : list Node) (c : fanout) : Prop :=
  (∃ middle, trace c = EvLock :: middle ∧
             Forall (λ e, is_lock_event e = false) middle) ∧
  create_requests (trace c) = [] ∧
  ∃ order, NoDup order ∧
           (∀ i, i ∈ order ↔ pool c !! i = Some GoDone) ∧
           deleted_nodes (trace c) = omap (λ i, nodes !! i) order.

End Traces.

Module MoreExamples.
Import GoInt Hcloud Cloudprovider Hetzner Examples.

(** The server type cannot be looked up. *)
Definition manager_no_type : hetznerManager :=
  manager_of (inr (ProviderError "server type not found")) [] (ChanClose 1000) (inl []).

End MoreExamples.

Module MoreGceExamples.
Import Gce.

(** A decoder that reads every document as the one entry
    CLUSTER_NAME: demo. *)
Definition yaml_one_entry : string → gmap string string + string :=
  λ _, inl {[ "CLUSTER_NAME" := "demo" ]}.

End MoreGceExamples.

(** * Properties *)

Import GoInt Hcloud Cloudprovider.

(** ** Go's [int] *)

Section GoIntFacts.

Lemma wrap_in_range z : in_range z → wrap z = z.
Proof.
  unfold in_range, wrap, min_int, max_int, int_bits. intros Hz.
  rewrite Z.mod_small; lia.
Qed.

Lemma in_range_wrap z : in_range (wrap z).
Proof.
  unfold in_range, wrap, min_int, max_int, int_bits.
  pose proof (Z.mod_pos_bound (z - - 2 ^ (64 - 1)) (2 ^ 64)). lia.
Qed.

(** Wrapping an intermediate result does not change the wrapped end
    result. *)
Lemma wrap_wrap_sub a b : wrap (wrap a - b) = wrap (a - b).
Proof.
  unfold wrap. f_equal.
  replace ((a - min_int) `mod` 2 ^ int_bits + min_int - b - min_int)
    with ((a - min_int) `mod` 2 ^ int_bits - b) by lia.
  replace (a - b - min_int) with ((a - min_int) - b) by lia.
  rewrite Zminus_mod_idemp_l. reflexivity.
Qed.

(** Subtracting a negated value adds it, also when a result wraps. *)
Lemma sub_neg a b : sub a (neg b) = add a b.
Proof.
  unfold sub, neg, add, wrap. f_equal.
  replace (a - ((- b - min_int) `mod` 2 ^ int_bits + min_int) - min_int)
    with (a - (- b - min_int) `mod` 2 ^ int_bits - 2 * min_int) by lia.
  rewrite <- (Zminus_mod_idemp_l (a - _ `mod` _)), Zminus_mod_idemp_r,
    Zminus_mod_idemp_l.
  f_equal. lia.
Qed.

Lemma len_nonneg {A} (s : list A) : 0 ≤ len s.
Proof. unfold len. lia. Qed.

End GoIntFacts.

(** ** [toInstanceStatus] *)

Section ToInstanceStatus.
Import Hetzner.

(** Splits on every comparison of the [switch], in its order. *)
Ltac switch_status status :=
  unfold toInstanceStatus;
  repeat match goal with
    | |- context [String.eqb status ?s] =>
        destruct (String.eqb_spec status s) as [->|?]
    end.

Lemma toInstanceStatus_nil_iff status :
  toInstanceStatus status = None ↔ status = "".
Proof.
  unfold toInstanceStatus.
  destruct (String.eqb_spec status "") as [->|Hne]; split; congruence.
Qed.

(** C10, the claim as written, fails at the most common status: a running
    server is none of Starting, Stopping, Initializing, Off and Deleting and
    its status is not empty, yet no [ErrorInfo] is set for it. *)
Lemma toInstanceStatus_running_has_no_error :
  ServerStatusRunning ≠ "" ∧
  (ServerStatusRunning ∉ [ServerStatusStarting; ServerStatusStopping;
                          ServerStatusInitializing; ServerStatusOff;
                          ServerStatusDeleting]) ∧
  toInstanceStatus ServerStatusRunning =
    Some {| State := InstanceRunning; ErrorInfo := None |}.
Proof.
  split; [discriminate|]. split; [|reflexivity].
  rewrite !elem_of_cons, elem_of_nil.
  intros [H|[H|[H|[H|[H|[]]]]]]; discriminate H.
Qed.

(** C10, amended: [toInstanceStatus] returns [nil] exactly for the empty
    status. Otherwise the [State] is [InstanceCreating] exactly for
    Starting, [InstanceDeleting] exactly for Stopping and [InstanceRunning]
    exactly for Running; Initializing, Off and Deleting keep the zero
    [State]; no [ErrorInfo] is set for any of these six, and one is set for
    every other status that is not empty. *)
Theorem toInstanceStatus_cases (status : ServerStatus) :
  (toInstanceStatus status = None ↔ status = "") ∧
  ∀ st, toInstanceStatus status = Some st →
    (State st = InstanceCreating ↔ status = ServerStatusStarting) ∧
    (State st = InstanceDeleting ↔ status = ServerStatusStopping) ∧
    (State st = InstanceRunning ↔ status = ServerStatusRunning) ∧
    (status ∈ [ServerStatusInitializing; ServerStatusOff; ServerStatusDeleting] →
       State st = 0 ∧ ErrorInfo st = None) ∧
    (status ∈ handled_statuses → ErrorInfo st = None) ∧
    (status ∉ handled_statuses →
       State st = 0 ∧
       ErrorInfo st = Some {| ErrorClass := OtherErrorClass;
                              ErrorCode := "no-code-hcloud";
                              ErrorMessage := "error" |}).
Proof.
  split; [apply toInstanceStatus_nil_iff|].
  intros st. unfold handled_statuses.
  rewrite !elem_of_cons, !elem_of_nil.
  switch_status status; intros Hst; try discriminate Hst;
    injection Hst as <-; cbn [State ErrorInfo];
    unfold InstanceCreating, InstanceDeleting, InstanceRunning in *;
    repeat split; intros; try congruence; try discriminate; try tauto;
    exfalso; repeat match goal with
      | H : _ ∨ _ |- _ => destruct H as [H|H]
      | H : False |- _ => destruct H
      | H : _ = _ |- _ => discriminate H
      end.
Qed.

Lemma toInstanceStatus_cases_witness :
  (ServerStatusMigrating ∉ handled_statuses) ∧
  ∃ st, toInstanceStatus ServerStatusMigrating = Some st ∧
        State st = 0 ∧
        ErrorInfo st = Some {| ErrorClass := OtherErrorClass;
                               ErrorCode := "no-code-hcloud";
                               ErrorMessage := "error" |}.
Proof.
  assert (Hother : ServerStatusMigrating ∉ handled_statuses).
  { unfold handled_statuses. rewrite !elem_of_cons, elem_of_nil.
    intros [H|[H|[H|[H|[H|[H|[]]]]]]]; discriminate H. }
  split; [exact Hother|].
  eexists. split; [reflexivity|].
  exact (proj2 (proj2 (proj2 (proj2 (proj2
           (proj2 (toInstanceStatus_cases ServerStatusMigrating) _ eq_refl)))))
         Hother).
Defined.

End ToInstanceStatus.

(** ** [ExtractKubeEnv] *)

Section KubeEnvFacts.
Import Gce GceExamples.

Lemma extractFromItems_no_key unmarshal (items : list MetadataItems) :
  (∀ item, item ∈ items → Key item ≠ kubeEnvKey) →
  extractFromItems unmarshal items = (None, None).
Proof.
  induction items as [|item rest IH]; intros Hkeys; [reflexivity|].
  cbn [extractFromItems].
  destruct (String.eqb_spec (Key item) kubeEnvKey) as [Heq|_].
  - exfalso. apply (Hkeys item); [left|exact Heq].
  - apply IH. intros it Hit. apply Hkeys. right. exact Hit.
Qed.

(** The loop skips the items that come before the first one with the
    key. *)
Lemma extractFromItems_skip unmarshal (before rest : list MetadataItems) :
  (∀ item, item ∈ before → Key item ≠ kubeEnvKey) →
  extractFromItems unmarshal (before ++ rest) = extractFromItems unmarshal rest.
Proof.
  induction before as [|item before IH]; intros Hkeys; [reflexivity|].
  cbn [app extractFromItems].
  destruct (String.eqb_spec (Key item) kubeEnvKey) as [Heq|_].
  - exfalso. apply (Hkeys item); [left|exact Heq].
  - apply IH. intros it Hit. apply Hkeys. right. exact Hit.
Qed.

(** C9, the claim as written, fails when the key occurs twice: the metadata
    of [template_kube_env_twice] has an item with key kube-env and a [nil]
    value, but the call returns what [ParseKubeEnv] makes of the first item:
    a map and no error whenever the YAML decoder accepts that item's
    content. *)
Lemma ExtractKubeEnv_later_nil_value_not_reported :
  (∃ md item,
      (Properties template_kube_env_twice ≫= Properties_Metadata) = Some md ∧
      item ∈ Items md ∧ Key item = kubeEnvKey ∧ Value item = None) ∧
  (∀ unmarshal,
      ExtractKubeEnv unmarshal (Some template_kube_env_twice) =
      ParseKubeEnv unmarshal "CLUSTER_NAME: demo") ∧
  (∀ unmarshal kubeEnv,
      unmarshal "CLUSTER_NAME: demo" = inl kubeEnv →
      ExtractKubeEnv unmarshal (Some template_kube_env_twice) = (Some kubeEnv, None)).
Proof.
  split; [|split].
  - eexists _, {| Key := "kube-env"; Value := None |}.
    split; [reflexivity|]. split; [|split; reflexivity].
    right. left.
  - reflexivity.
  - intros unmarshal kubeEnv Hyaml.
    cbn. unfold ParseKubeEnv. rewrite Hyaml. reflexivity.
Qed.

(** C9, amended: [ExtractKubeEnv] returns an error when the template is
    [nil], when its Properties or their Metadata are [nil], or when the
    first metadata item with key kube-env has a [nil] value; it returns a
    [nil] map together with a [nil] error when no metadata item has the key
    kube-env. *)
Theorem ExtractKubeEnv_errors (unmarshal : string → gmap string string + string) :
  ExtractKubeEnv unmarshal None = (None, Some ErrTemplateNil) ∧
  (∀ template,
      Properties template = None ∨
      (∃ properties, Properties template = Some properties ∧
                     Properties_Metadata properties = None) →
      ExtractKubeEnv unmarshal (Some template) =
        (None, Some (ErrNoMetadata (Name template)))) ∧
  (∀ template properties metadata,
      Properties template = Some properties →
      Properties_Metadata properties = Some metadata →
      (∀ before item after,
          Items metadata = before ++ item :: after →
          (∀ earlier, earlier ∈ before → Key earlier ≠ kubeEnvKey) →
          Key item = kubeEnvKey → Value item = None →
          ExtractKubeEnv unmarshal (Some template) = (None, Some ErrNoKubeEnvContent)) ∧
      ((∀ item, item ∈ Items metadata → Key item ≠ kubeEnvKey) →
          ExtractKubeEnv unmarshal (Some template) = (None, None))).
Proof.
  split; [reflexivity|]. split.
  - intros template [Hp|(properties & Hp & Hm)]; unfold ExtractKubeEnv; rewrite Hp.
    + reflexivity.
    + rewrite Hm. reflexivity.
  - intros template properties metadata Hp Hm.
    unfold ExtractKubeEnv. rewrite Hp, Hm. split.
    + intros before item after Hitems Hbefore Hkey Hval.
      rewrite Hitems, extractFromItems_skip by exact Hbefore.
      cbn [extractFromItems]. rewrite Hkey, String.eqb_refl, Hval. reflexivity.
    + apply extractFromItems_no_key.
Qed.

Lemma ExtractKubeEnv_errors_witness :
  ExtractKubeEnv yaml_refusing (Some template_kube_env_nil) =
    (None, Some ErrNoKubeEnvContent) ∧
  ExtractKubeEnv yaml_refusing (Some template_no_kube_env) = (None, None).
Proof.
  split.
  - refine (proj1 (proj2 (proj2 (ExtractKubeEnv_errors yaml_refusing))
                     template_kube_env_nil _ _ eq_refl eq_refl)
              [ {| Key := "cluster-name"; Value := Some "demo" |} ]
              {| Key := "kube-env"; Value := None |} [] eq_refl _ eq_refl eq_refl).
    intros earlier Hin. apply list_elem_of_singleton in Hin as ->. discriminate.
  - refine (proj2 (proj2 (proj2 (ExtractKubeEnv_errors yaml_refusing))
                     template_no_kube_env _ _ eq_refl eq_refl) _).
    intros item Hin. apply list_elem_of_singleton in Hin as ->. discriminate.
Defined.

End KubeEnvFacts.

(** ** [waitForServerAction] *)

Section ActionWaiter.
Import Hetzner Examples.

Lemma select_before tie c timeout at_ v :
  c = ChanSend at_ v ∨ (c = ChanClose at_ ∧ v = None) →
  before_timeout at_ timeout →
  select tie c timeout = SelErrChan v.
Proof.
  unfold before_timeout. intros [->|[-> ->]] Hlt; cbn;
    apply Z.compare_lt_iff in Hlt; rewrite Hlt; reflexivity.
Qed.

Lemma select_quiet tie c timeout :
  quiet_until_timeout c timeout → select tie c timeout = SelTimer.
Proof.
  destruct c as [at_ v|at_|]; cbn; unfold after_timeout; intros Hgt;
    try reflexivity; apply Z.compare_gt_iff in Hgt; rewrite Hgt; reflexivity.
Qed.

(** C4, the claim as written, fails on the way the hcloud client reports
    success: [nil] is sent on the errors channel. The channel then neither
    closes without a value nor sends an error before the timeout, and the
    waiter returns [nil], not a timeout. *)
Lemma waitForServerAction_nil_sent_is_success :
  let action := {| Action_ID := 0 |} in
  watchProgress manager_nil_sent action = ChanSend 1000 None ∧
  before_timeout 1000 (createTimeout manager_nil_sent) ∧
  (∀ at_, watchProgress manager_nil_sent action ≠ ChanClose at_) ∧
  (∀ at_ err, watchProgress manager_nil_sent action ≠ ChanSend at_ (Some err)) ∧
  (waitForServerAction manager_nil_sent "node" action).2 = None ∧
  (waitForServerAction manager_nil_sent "node" action).2 ≠ Some (ErrWaitTimeout "node").
Proof.
  cbn zeta. split; [reflexivity|]. split; [reflexivity|].
  split; [discriminate|]. split; [discriminate|].
  split; [reflexivity|discriminate].
Qed.

(** C4, amended: when the errors channel is closed before the timeout
    without a value having been sent, or [nil] is sent on it before the
    timeout, [waitForServerAction] returns [nil]; when an error is sent
    before the timeout, it returns an error that wraps it; when the channel
    does nothing before the timeout, it returns the timeout error. *)
Theorem waitForServerAction_outcomes (m : hetznerManager) (serverName : string)
    (action : Action) :
  let result := (waitForServerAction m serverName action).2 in
  (∀ at_, watchProgress m action = ChanClose at_ →
          before_timeout at_ (createTimeout m) → result = None) ∧
  (∀ at_, watchProgress m action = ChanSend at_ None →
          before_timeout at_ (createTimeout m) → result = None) ∧
  (∀ at_ err, watchProgress m action = ChanSend at_ (Some err) →
          before_timeout at_ (createTimeout m) →
          result = Some (ErrWaitingForAction serverName err)) ∧
  (quiet_until_timeout (watchProgress m action) (createTimeout m) →
          result = Some (ErrWaitTimeout serverName)).
Proof.
  cbn zeta. unfold waitForServerAction. cbn [snd].
  repeat split.
  - intros at_ Hc Hlt.
    rewrite (select_before _ _ _ at_ None) by auto. reflexivity.
  - intros at_ Hc Hlt.
    rewrite (select_before _ _ _ at_ None) by auto. reflexivity.
  - intros at_ err Hc Hlt.
    rewrite (select_before _ _ _ at_ (Some err)) by auto. reflexivity.
  - intros Hq. rewrite select_quiet by exact Hq. reflexivity.
Qed.

(** The four cases of [waitForServerAction_outcomes], each on a manager
    of its own. *)
Lemma waitForServerAction_outcomes_witness :
  let action := {| Action_ID := 0 |} in
  (waitForServerAction (manager_ok 0) "node" action).2 = None ∧
  (waitForServerAction manager_nil_sent "node" action).2 = None ∧
  (waitForServerAction manager_action_error "node" action).2 =
    Some (ErrWaitingForAction "node" (ProviderError "action failed")) ∧
  (waitForServerAction manager_slow "node" action).2 = Some (ErrWaitTimeout "node").
Proof.
  cbn zeta. split; [|split; [|split]].
  - apply (proj1 (waitForServerAction_outcomes (manager_ok 0) "node" _) 1000);
      reflexivity.
  - apply (proj1 (proj2 (waitForServerAction_outcomes manager_nil_sent "node" _)) 1000);
      reflexivity.
  - apply (proj1 (proj2 (proj2
             (waitForServerAction_outcomes manager_action_error "node" _))) 1000);
      reflexivity.
  - apply (proj2 (proj2 (proj2 (waitForServerAction_outcomes manager_slow "node" _)))).
    exact I.
Defined.

End ActionWaiter.

(** ** Rejected calls and [DecreaseTargetSize] *)

Section Validation.
Import Hetzner Examples.

(** C7: for every [delta], [DecreaseTargetSize] returns [nil] and leaves
    the node group with [targetSize + delta] (the sum as Go's [int]
    computes it, which is the sum itself whenever that fits) as its target
    size, whatever [minSize] is; it calls no collaborator and changes no
    other field of the node group. *)
Theorem DecreaseTargetSize_only_adds (delta : Z) (n : hetznerNodeGroup) :
  let r := DecreaseTargetSize delta n in
  ret r = None ∧
  targetSize (group r) = add (targetSize n) delta ∧
  (in_range (targetSize n + delta) → targetSize (group r) = targetSize n + delta) ∧
  events r = [] ∧
  group r = set_targetSize (targetSize (group r)) n ∧
  id (group r) = id n ∧ minSize (group r) = minSize n ∧
  maxSize (group r) = maxSize n ∧ region (group r) = region n ∧
  instanceType (group r) = instanceType n.
Proof.
  cbn. repeat split; try reflexivity.
  intros Hr. unfold add. apply wrap_in_range, Hr.
Qed.

Lemma DecreaseTargetSize_only_adds_witness :
  in_range (targetSize pool_a + -1) ∧
  targetSize (group (DecreaseTargetSize (-1) pool_a)) = 2.
Proof.
  assert (Hfits : in_range (targetSize pool_a + -1)) by (split; discriminate).
  split; [exact Hfits|].
  exact (proj1 (proj2 (proj2 (DecreaseTargetSize_only_adds (-1) pool_a))) Hfits).
Defined.

(** C5: a call of [IncreaseSize] with [delta ≤ 0], or with a
    [targetSize + delta] above [maxSize] (the sum as Go's [int] computes
    it, which is the sum itself whenever that fits), returns an error; the
    node group is as before and no collaborator has been called, so no
    server was asked for. *)
Theorem IncreaseSize_rejects (m : hetznerManager) (sched : list nat) (delta : Z)
    (n : hetznerNodeGroup) :
  delta ≤ 0 ∨ add (targetSize n) delta > maxSize n ∨
  (in_range (targetSize n + delta) ∧ targetSize n + delta > maxSize n) →
  ∃ err, IncreaseSize m sched delta n =
           Some {| ret := Some err; group := n; events := [] |}.
Proof.
  intros Hbad. unfold IncreaseSize, MaxSize.
  destruct (Z.leb_spec delta 0) as [Hle|Hpos]; [eauto|].
  assert (Hmax : add (targetSize n) delta > maxSize n).
  { destruct Hbad as [Hle|[Hmax|[Hfits Hmax]]]; [lia|exact Hmax|].
    unfold add. rewrite wrap_in_range by exact Hfits. exact Hmax. }
  destruct (Z.gtb_spec (add (targetSize n) delta) (maxSize n)); [eauto|lia].
Qed.

Lemma IncreaseSize_rejects_witness :
  (∃ err, IncreaseSize (manager_ok 3) [] 0 pool_a =
            Some {| ret := Some err; group := pool_a; events := [] |}) ∧
  (∃ err, IncreaseSize (manager_ok 3) [0; 1; 2]%nat 3 pool_a =
            Some {| ret := Some err; group := pool_a; events := [] |}).
Proof.
  split.
  - apply (IncreaseSize_rejects (manager_ok 3) [] 0 pool_a). left. lia.
  - apply (IncreaseSize_rejects (manager_ok 3) [0; 1; 2]%nat 3 pool_a).
    right. right. split; [split; discriminate|reflexivity].
Defined.

(** C6: a call of [DeleteNodes] with [targetSize - len(nodes)] below
    [minSize] (the difference as Go's [int] computes it, which is the
    difference itself whenever that fits) returns the size-decrease error;
    it takes and releases the lock and calls nothing else, so no server is
    deleted, and the node group is as before. *)
Theorem DeleteNodes_rejects (m : hetznerManager) (sched : list nat)
    (nodes : list Node) (n : hetznerNodeGroup) :
  sub (targetSize n) (len nodes) < minSize n ∨
  (in_range (targetSize n - len nodes) ∧ targetSize n - len nodes < minSize n) →
  DeleteNodes m sched nodes n =
    Some {| ret := Some (ErrDecreaseTooLarge (targetSize n)
                           (sub (targetSize n) (len nodes)) (minSize n));
            group := n; events := [EvLock; EvUnlock] |}.
Proof.
  intros Hbad. unfold DeleteNodes, MinSize.
  assert (Hlow : sub (targetSize n) (len nodes) < minSize n).
  { destruct Hbad as [Hlow|[Hfits Hlow]]; [exact Hlow|].
    unfold sub. rewrite wrap_in_range by exact Hfits. exact Hlow. }
  destruct (Z.ltb_spec (sub (targetSize n) (len nodes)) (minSize n)); [reflexivity|lia].
Qed.

Lemma DeleteNodes_rejects_witness :
  DeleteNodes (manager_ok 0) [0; 1; 2]%nat [node "a"; node "b"; node "c"] pool_a =
    Some {| ret := Some (ErrDecreaseTooLarge 3 0 1);
            group := pool_a; events := [EvLock; EvUnlock] |}.
Proof.
  apply (DeleteNodes_rejects (manager_ok 0) [0; 1; 2]%nat
           [node "a"; node "b"; node "c"] pool_a).
  right. split; [split; discriminate|reflexivity].
Defined.

End Validation.

(** ** The goroutines of a call *)

Section FanOut.
Import Hetzner.

(** Replacing goroutine [i], which was not done. *)
Lemma stored_insert fails gs : ∀ first i g g',
  gs !! i = Some g → is_done g = false →
  stored fails first (<[i := g']> gs) =
  ((if fails (first + i)%nat && is_done g' then 1 else 0) + stored fails first gs)%nat.
Proof.
  induction gs as [|g0 gs IH]; intros first [|i] g g' Hi Hg; try discriminate Hi.
  - cbn in Hi. injection Hi as ->. cbn [insert list_insert stored].
    rewrite Hg, Nat.add_0_r, andb_false_r. lia.
  - cbn in Hi. change (<[S i := g']> (g0 :: gs)) with (g0 :: <[i := g']> gs).
    cbn [stored]. rewrite (IH (S first) i g g' Hi Hg).
    replace (S first + i)%nat with (first + S i)%nat by lia. lia.
Qed.

(** Once all are done, the goroutines that have written are those that
    failed. *)
Lemma stored_all_done fails gs : ∀ first,
  forallb is_done gs = true →
  stored fails first gs = length (filter (λ i, fails i = true) (seq first (length gs))).
Proof.
  induction gs as [|g gs IH]; intros first Hdone; [reflexivity|].
  cbn in Hdone. apply andb_prop in Hdone as [Hg Hgs].
  cbn [stored length seq]. rewrite filter_cons, Hg, andb_true_r, (IH _ Hgs).
  destruct (fails first); case_decide; try congruence; reflexivity.
Qed.

Lemma failures_le m n first count : (failures m n first count ≤ count)%nat.
Proof.
  unfold failures. etransitivity; [apply length_filter|]. rewrite length_seq. lia.
Qed.

Lemma run_app step sched1 sched2 c :
  run step (sched1 ++ sched2) c = run step sched2 (run step sched1 c).
Proof. unfold run. apply foldl_app. Qed.

Lemma step_create_length m n i c :
  length (pool (step_create m n i c)) = length (pool c).
Proof.
  unfold step_create.
  destruct (pool c !! i) as [[| |v|]|]; try reflexivity;
    try destruct (createServer m n i) as [evs err]; cbn; apply length_insert.
Qed.

Lemma run_create_length m n sched c :
  length (pool (run (step_create m n) sched c)) = length (pool c).
Proof.
  revert c. induction sched as [|i sched IH]; intros c; [reflexivity|].
  change (run (step_create m n) (i :: sched) c)
    with (run (step_create m n) sched (step_create m n i c)).
  rewrite IH. apply step_create_length.
Qed.

Lemma step_create_decrements m n T i c :
  decrements_bounded (create_fails m n) T c →
  decrements_bounded (create_fails m n) T (step_create m n i c).
Proof.
  intros (Hfails & (d & Hd & Hd1 & Hs) & Hstore). unfold step_create.
  destruct (pool c !! i) as [g|] eqn:Hi; [|repeat split; eauto].
  assert (Hlt : (i < length (pool c))%nat) by (eapply lookup_lt_Some; eauto).
  destruct g as [| |v|].
  - (* the goroutine runs createServer *)
    destruct (createServer m n i) as [evs err] eqn:Hcreate.
    assert (Hf : create_fails m n i = match err with Some _ => true | None => false end)
      by (unfold create_fails; rewrite Hcreate; reflexivity).
    pose proof (stored_insert (create_fails m n) (pool c) 0 i GoStart
                  (match err with Some _ => GoLoad | None => GoDone end) Hi eq_refl) as Hc.
    assert (Hsame : stored (create_fails m n) 0
                      (<[i := match err with Some _ => GoLoad | None => GoDone end]> (pool c)) =
                    stored (create_fails m n) 0 (pool c))
      by (rewrite Hc, Nat.add_0_l, Hf; destruct err; reflexivity).
    clear Hc. unfold decrements_bounded. cbn [shared pool]. rewrite Hsame.
    split; [|split].
    + intros j g Hj Hg1 Hg2.
      destruct (decide (i = j)) as [->|Hne].
      * rewrite list_lookup_insert_eq in Hj by exact Hlt.
        rewrite Hf. destruct err; [reflexivity|congruence].
      * rewrite list_lookup_insert_ne in Hj by exact Hne. eauto.
    + eauto.
    + intros j v Hj.
      destruct (decide (i = j)) as [->|Hne].
      * rewrite list_lookup_insert_eq in Hj by exact Hlt. destruct err; discriminate Hj.
      * rewrite list_lookup_insert_ne in Hj by exact Hne. eauto.
  - (* the goroutine reads the shared targetSize *)
    pose proof (stored_insert (create_fails m n) (pool c) 0 i GoLoad
                  (GoStore (shared c)) Hi eq_refl) as Hc.
    cbn [is_done] in Hc. rewrite andb_false_r in Hc. cbn in Hc.
    unfold decrements_bounded. cbn [shared pool]. rewrite Hc.
    split; [|split].
    + intros j g Hj Hg1 Hg2.
      destruct (decide (i = j)) as [->|Hne].
      * apply (Hfails j GoLoad Hi); discriminate.
      * rewrite list_lookup_insert_ne in Hj by exact Hne. eauto.
    + eauto.
    + intros j v Hj.
      destruct (decide (i = j)) as [->|Hne].
      * rewrite list_lookup_insert_eq in Hj by exact Hlt. injection Hj as <-. eauto.
      * rewrite list_lookup_insert_ne in Hj by exact Hne. eauto.
  - (* the goroutine writes what it read, less one *)
    pose proof (stored_insert (create_fails m n) (pool c) 0 i (GoStore v)
                  GoDone Hi eq_refl) as Hc.
    assert (Hfi : create_fails m n i = true)
      by (apply (Hfails i (GoStore v) Hi); discriminate).
    cbn [is_done] in Hc. rewrite Nat.add_0_l, Hfi in Hc. cbn [andb] in Hc.
    destruct (Hstore i v Hi) as (dv & Hdv & Hv).
    unfold decrements_bounded. cbn [shared pool]. rewrite Hc.
    split; [|split].
    + intros j g Hj Hg1 Hg2.
      destruct (decide (i = j)) as [->|Hne].
      * rewrite list_lookup_insert_eq in Hj by exact Hlt. congruence.
      * rewrite list_lookup_insert_ne in Hj by exact Hne. eauto.
    + exists (S dv). split; [lia|]. split; [lia|].
      unfold sub. rewrite Hv, wrap_wrap_sub. f_equal. lia.
    + intros j w Hj.
      destruct (decide (i = j)) as [->|Hne].
      * rewrite list_lookup_insert_eq in Hj by exact Hlt. discriminate Hj.
      * rewrite list_lookup_insert_ne in Hj by exact Hne.
        destruct (Hstore j w Hj) as (d' & Hd' & Hw). exists d'. split; [lia|exact Hw].
  - repeat split; eauto.
Qed.

Lemma run_create_decrements m n T sched c :
  decrements_bounded (create_fails m n) T c →
  decrements_bounded (create_fails m n) T (run (step_create m n) sched c).
Proof.
  revert c. induction sched as [|i sched IH]; intros c Hc; [exact Hc|].
  change (run (step_create m n) (i :: sched) c)
    with (run (step_create m n) sched (step_create m n i c)).
  apply IH, step_create_decrements, Hc.
Qed.

Lemma stored_replicate_start fails count : ∀ first,
  stored fails first (replicate count GoStart) = 0%nat.
Proof.
  induction count as [|count IH]; intros first; [reflexivity|].
  cbn [replicate stored is_done]. rewrite andb_false_r, IH. reflexivity.
Qed.

(** *** The schedule that runs the goroutines in turn *)

Lemma insert_middle (before after : list goroutine) g g' :
  <[length before := g']> (before ++ g :: after) = before ++ g' :: after.
Proof. rewrite insert_app_r_alt, Nat.sub_diag by lia. reflexivity. Qed.

Lemma failures_S m n first count :
  failures m n first (S count) =
  ((if create_fails m n first then 1 else 0) + failures m n (S first) count)%nat.
Proof.
  unfold failures. cbn [seq]. rewrite filter_cons.
  destruct (create_fails m n first); case_decide; try congruence; reflexivity.
Qed.

Lemma in_turn_S first count :
  in_turn first (S count) = [first; first; first] ++ in_turn (S first) count.
Proof. reflexivity. Qed.

(** The step of goroutine [length before], by where it stands. *)
Lemma step_create_at m n before g after s tr :
  step_create m n (length before)
    {| shared := s; pool := before ++ g :: after; trace := tr |} =
  match g with
  | GoStart =>
      {| shared := s;
         pool := before ++ (if create_fails m n (length before) then GoLoad else GoDone) :: after;
         trace := tr ++ (createServer m n (length before)).1 |}
  | GoLoad => {| shared := s; pool := before ++ GoStore s :: after; trace := tr |}
  | GoStore v => {| shared := sub v 1; pool := before ++ GoDone :: after; trace := tr |}
  | GoDone => {| shared := s; pool := before ++ GoDone :: after; trace := tr |}
  end.
Proof.
  unfold step_create, create_fails. cbn [pool shared trace].
  rewrite list_lookup_middle by reflexivity.
  destruct g as [| |v|]; try (rewrite insert_middle; reflexivity); try reflexivity.
  destruct (createServer m n (length before)) as [evs [err|]]; cbn [fst snd];
    rewrite insert_middle; reflexivity.
Qed.

(** Goroutine [length before] runs to its end, alone. *)
Lemma run_one_create m n before after X tr :
  run (step_create m n) [length before; length before; length before]
    {| shared := wrap X; pool := before ++ GoStart :: after; trace := tr |} =
  {| shared := wrap (X - (if create_fails m n (length before) then 1 else 0));
     pool := before ++ GoDone :: after;
     trace := tr ++ (createServer m n (length before)).1 |}.
Proof.
  unfold run. cbn [foldl]. rewrite step_create_at.
  destruct (create_fails m n (length before)); rewrite !step_create_at.
  - unfold sub. rewrite wrap_wrap_sub. reflexivity.
  - replace (X - 0) with X by lia. reflexivity.
Qed.

Lemma run_in_turn_create m n count : ∀ before X tr,
  ∃ tr', run (step_create m n) (in_turn (length before) count)
           {| shared := wrap X; pool := before ++ replicate count GoStart; trace := tr |} =
         {| shared := wrap (X - Z.of_nat (failures m n (length before) count));
            pool := before ++ replicate count GoDone;
            trace := tr' |}.
Proof.
  induction count as [|count IH]; intros before X tr.
  - exists tr. cbn. rewrite Z.sub_0_r. reflexivity.
  - rewrite in_turn_S, run_app. cbn [replicate].
    rewrite run_one_create.
    replace (before ++ GoDone :: replicate count GoStart)
      with ((before ++ [GoDone]) ++ replicate count GoStart)
      by (rewrite <- app_assoc; reflexivity).
    replace (S (length before)) with (length (before ++ [GoDone]))
      by (rewrite length_app; cbn; lia).
    destruct (IH (before ++ [GoDone])
                 (X - (if create_fails m n (length before) then 1 else 0))
                 (tr ++ (createServer m n (length before)).1)) as [tr' Hrun].
    exists tr'. rewrite Hrun. f_equal.
    + f_equal. rewrite failures_S.
      replace (S (length before)) with (length (before ++ [GoDone]))
        by (rewrite length_app; cbn; lia).
      destruct (create_fails m n (length before)); lia.
    + rewrite <- app_assoc. reflexivity.
Qed.

Lemma all_done_replicate count :
  forallb is_done (replicate count GoDone) = true.
Proof. induction count as [|count IH]; [reflexivity|exact IH]. Qed.

(** Goroutine [length before] of [DeleteNodes] runs, which is one step. *)
Lemma run_in_turn_delete m nodes count : ∀ before v tr,
  (length before + count ≤ length nodes)%nat →
  ∃ tr', run (step_delete m nodes) (seq (length before) count)
           {| shared := v; pool := before ++ replicate count GoStart; trace := tr |} =
         {| shared := v; pool := before ++ replicate count GoDone; trace := tr' |}.
Proof.
  induction count as [|count IH]; intros before v tr Hlen.
  - exists tr. reflexivity.
  - cbn [seq replicate].
    change (run (step_delete m nodes) (length before :: seq (S (length before)) count) ?c)
      with (run (step_delete m nodes) (seq (S (length before)) count)
              (step_delete m nodes (length before) c)).
    unfold step_delete at 2. cbn [pool shared trace].
    rewrite list_lookup_middle by reflexivity.
    destruct (nodes !! length before) as [node|] eqn:Hnode.
    2:{ apply lookup_ge_None in Hnode. lia. }
    rewrite insert_middle.
    replace (before ++ GoDone :: replicate count GoStart)
      with ((before ++ [GoDone]) ++ replicate count GoStart)
      by (rewrite <- app_assoc; reflexivity).
    replace (S (length before)) with (length (before ++ [GoDone]))
      by (rewrite length_app; cbn; lia).
    destruct (IH (before ++ [GoDone]) v (tr ++ [EvDeleteByNode node])) as [tr' Hrun].
    { rewrite length_app. cbn. lia. }
    exists tr'. rewrite Hrun. rewrite <- app_assoc. reflexivity.
Qed.

End FanOut.

(** ** [IncreaseSize] *)

Section ScaleUp.
Import Hetzner Examples.

Lemma pricedIn_false_iff reg (pricings : list ServerTypeLocationPricing) :
  pricedIn reg pricings = false ↔
  ∀ price, price ∈ pricings → Location_Name (Pricing_Location price) ≠ reg.
Proof.
  induction pricings as [|price rest IH]; cbn [pricedIn].
  - split; [|reflexivity]. intros _ price Hin. inversion Hin.
  - destruct (String.eqb_spec (Location_Name (Pricing_Location price)) reg) as [Heq|Hne].
    + split; [discriminate|]. intros Hall. exfalso. apply (Hall price); [left|exact Heq].
    + rewrite IH. split.
      * intros Hall p Hin. apply elem_of_cons in Hin as [->|Hin]; auto.
      * intros Hall p Hin. apply Hall. right. exact Hin.
Qed.

(** The call once the checks on [delta] and [maxSize] have passed and the
    server type is on sale in the region. *)
Lemma IncreaseSize_checked m sched delta n serverType :
  0 < delta → add (targetSize n) delta ≤ maxSize n →
  getServerType m (instanceType n) = inl serverType →
  pricedIn (region n) (Pricings serverType) = true →
  IncreaseSize m sched delta n =
    let c := run (step_create m n) sched
               {| shared := add (targetSize n) delta;
                  pool := replicate (Z.to_nat delta) GoStart;
                  trace := [EvLock; EvGetServerType (instanceType n)] |} in
    if all_done c then
      Some {| ret := None; group := set_targetSize (shared c) n;
              events := trace c ++ [EvServers; EvUnlock] |}
    else None.
Proof.
  intros Hpos Hmax Htype Hsold. unfold IncreaseSize, MaxSize, serverTypeAvailable.
  destruct (Z.leb_spec delta 0); [lia|].
  destruct (Z.gtb_spec (add (targetSize n) delta) (maxSize n)); [lia|].
  rewrite Htype, Hsold. reflexivity.
Qed.

(** Every call that returns either failed and left the node group as it
    was, or passed its checks, returned [nil] and set [targetSize] to
    [targetSize + delta] less some number of decrements: at most one for
    each creation that failed, and at least one if any failed. *)
Lemma IncreaseSize_returned m sched delta n o :
  IncreaseSize m sched delta n = Some o →
  (ret o ≠ None ∧ group o = n) ∨
  (ret o = None ∧ 0 < delta ∧ add (targetSize n) delta ≤ maxSize n ∧
   ∃ d : nat, (d ≤ failures m n 0 (Z.to_nat delta))%nat ∧
     (0 < failures m n 0 (Z.to_nat delta) → 0 < d)%nat ∧
     group o = set_targetSize (wrap (targetSize n + delta - Z.of_nat d)) n).
Proof.
  unfold IncreaseSize, MaxSize, serverTypeAvailable.
  destruct (Z.leb_spec delta 0) as [|Hpos].
  { intros [= <-]. left. split; [discriminate|reflexivity]. }
  destruct (Z.gtb_spec (add (targetSize n) delta) (maxSize n)) as [|Hmax].
  { intros [= <-]. left. split; [discriminate|reflexivity]. }
  destruct (getServerType m (instanceType n)) as [serverType|err].
  2:{ intros [= <-]. left. split; [discriminate|reflexivity]. }
  destruct (pricedIn (region n) (Pricings serverType)).
  2:{ intros [= <-]. left. split; [discriminate|reflexivity]. }
  set (c0 := {| shared := add (targetSize n) delta;
                pool := replicate (Z.to_nat delta) GoStart;
                trace := EvLock :: [EvGetServerType (instanceType n)] |}).
  assert (Hinv : decrements_bounded (create_fails m n) (targetSize n + delta)
                   (run (step_create m n) sched c0)).
  { apply run_create_decrements. unfold decrements_bounded. cbn [pool shared c0].
    rewrite stored_replicate_start. split; [|split].
    - intros i g Hi Hg. apply lookup_replicate in Hi as [-> _]. congruence.
    - exists 0%nat. split; [lia|]. split; [lia|]. unfold add. f_equal. lia.
    - intros i v Hi. apply lookup_replicate in Hi as [Hi _]. discriminate Hi. }
  pose proof (run_create_length m n sched c0) as Hlen.
  cbn [pool c0] in Hlen. rewrite length_replicate in Hlen.
  unfold all_done.
  destruct (forallb is_done (pool (run (step_create m n) sched c0))) eqn:Hdone;
    [|discriminate].
  intros [= <-]. right. cbn [ret group].
  repeat split; try lia.
  destruct Hinv as (_ & (d & Hd & Hd1 & Hs) & _).
  rewrite (stored_all_done _ _ 0 Hdone), Hlen in Hd, Hd1.
  exists d. split; [exact Hd|]. split; [exact Hd1|]. rewrite Hs. reflexivity.
Qed.

(** Run in turn, the goroutines all finish, and the call subtracts one for
    each creation that failed. *)
Lemma IncreaseSize_in_turn m delta n serverType :
  0 < delta → add (targetSize n) delta ≤ maxSize n →
  getServerType m (instanceType n) = inl serverType →
  pricedIn (region n) (Pricings serverType) = true →
  ∃ evs, IncreaseSize m (in_turn 0 (Z.to_nat delta)) delta n =
    Some {| ret := None;
            group := set_targetSize
                       (wrap (targetSize n + delta
                              - Z.of_nat (failures m n 0 (Z.to_nat delta)))) n;
            events := evs |}.
Proof.
  intros Hpos Hmax Htype Hsold.
  rewrite (IncreaseSize_checked m _ delta n serverType) by assumption.
  cbn zeta. unfold add.
  destruct (run_in_turn_create m n (Z.to_nat delta) [] (targetSize n + delta)
              [EvLock; EvGetServerType (instanceType n)]) as [tr Hrun].
  cbn [length app] in Hrun. rewrite Hrun.
  unfold all_done. cbn [pool shared trace]. rewrite all_done_replicate.
  eexists. reflexivity.
Qed.

(** C8: a call of [IncreaseSize] that passes the checks on [delta] and
    [maxSize] fails with the not-available-in-region error exactly when the
    pool's server type, as the manager knows it, has no entry in its
    pricing list whose location name is the pool's region; the node group
    is then as before, and the lock and the lookup of the type are the only
    calls made: no server is created. *)
Theorem IncreaseSize_unavailable_iff (m : hetznerManager) (sched : list nat)
    (delta : Z) (n : hetznerNodeGroup) :
  0 < delta → add (targetSize n) delta ≤ maxSize n →
  let unsold :=
    ∃ serverType, getServerType m (instanceType n) = inl serverType ∧
      ∀ price, price ∈ Pricings serverType →
               Location_Name (Pricing_Location price) ≠ region n in
  (unsold →
     IncreaseSize m sched delta n =
       Some {| ret := Some (ErrTypeNotAvailable (instanceType n) (region n));
               group := n;
               events := [EvLock; EvGetServerType (instanceType n); EvUnlock] |}) ∧
  (∀ o type reg, IncreaseSize m sched delta n = Some o →
                 ret o = Some (ErrTypeNotAvailable type reg) → unsold).
Proof.
  intros Hpos Hmax unsold. subst unsold. split.
  - intros (serverType & Htype & Hunsold).
    apply pricedIn_false_iff in Hunsold.
    unfold IncreaseSize, MaxSize, serverTypeAvailable.
    destruct (Z.leb_spec delta 0); [lia|].
    destruct (Z.gtb_spec (add (targetSize n) delta) (maxSize n)); [lia|].
    rewrite Htype, Hunsold. reflexivity.
  - intros o type reg Ho Hret.
    destruct (getServerType m (instanceType n)) as [serverType|err] eqn:Htype.
    + exists serverType. split; [reflexivity|]. apply pricedIn_false_iff.
      destruct (pricedIn (region n) (Pricings serverType)) eqn:Hsold; [|reflexivity].
      rewrite (IncreaseSize_checked m sched delta n serverType) in Ho by assumption.
      cbn zeta in Ho. destruct (all_done _); [|discriminate Ho].
      injection Ho as <-. discriminate Hret.
    + unfold IncreaseSize, MaxSize, serverTypeAvailable in Ho.
      destruct (Z.leb_spec delta 0); [lia|].
      destruct (Z.gtb_spec (add (targetSize n) delta) (maxSize n)); [lia|].
      rewrite Htype in Ho. injection Ho as <-. discriminate Hret.
Qed.

Lemma IncreaseSize_unavailable_iff_witness :
  0 < 1 ∧ add (targetSize pool_a) 1 ≤ maxSize pool_a ∧
  IncreaseSize manager_elsewhere [0]%nat 1 pool_a =
    Some {| ret := Some (ErrTypeNotAvailable "cx21" "fsn1");
            group := pool_a;
            events := [EvLock; EvGetServerType "cx21"; EvUnlock] |}.
Proof.
  assert (Hpos : 0 < 1) by lia.
  assert (Hmax : add (targetSize pool_a) 1 ≤ maxSize pool_a) by discriminate.
  split; [exact Hpos|]. split; [exact Hmax|].
  apply (proj1 (IncreaseSize_unavailable_iff manager_elsewhere [0]%nat 1 pool_a
                  Hpos Hmax)).
  exists cx21_nbg1_only. split; [reflexivity|].
  apply (proj1 (pricedIn_false_iff _ _)). reflexivity.
Defined.

(** With at most one failing creation there is nothing to interleave:
    whatever the schedule, the call subtracts the failure. *)
Lemma IncreaseSize_one_failure m sched delta n o :
  IncreaseSize m sched delta n = Some o → ret o = None →
  (failures m n 0 (Z.to_nat delta) ≤ 1)%nat →
  targetSize (group o) =
    wrap (targetSize n + delta - Z.of_nat (failures m n 0 (Z.to_nat delta))).
Proof.
  intros Ho Hret Hk.
  destruct (IncreaseSize_returned m sched delta n o Ho)
    as [[Hne _]|(_ & _ & _ & d & Hd & Hd1 & ->)]; [congruence|].
  cbn. f_equal. lia.
Qed.

(** C3 fails on the code: five creations of which the second and the
    fourth fail. The two failing goroutines both read the shared
    [targetSize] (3 + 5) before either writes it back, so one decrement is
    lost: the call returns [nil] with a target size of 3 + 5 - 1, where the
    claim has 3 + 5 - 2. *)
Theorem IncreaseSize_lost_decrement :
  failures (manager_failing [1; 3]%nat) pool_b 0 5 = 2%nat ∧
  ∃ evs, IncreaseSize (manager_failing [1; 3]%nat)
           [0; 1; 2; 3; 4; 1; 3; 1; 3]%nat 5 pool_b =
         Some {| ret := None;
                 group := set_targetSize (targetSize pool_b + 5 - 1) pool_b;
                 events := evs |}.
Proof. split; [reflexivity|]. eexists. vm_compute. reflexivity. Qed.

End ScaleUp.

(** ** [DeleteNodes] *)

Section ScaleDown.
Import Hetzner Examples.

Lemma resetTargetSize_group m expectedDelta n :
  (resetTargetSize m expectedDelta n).2 =
  set_targetSize
    match allServers m (id n) with
    | inl listed => len listed
    | inr _ => sub (targetSize n) expectedDelta
    end n.
Proof. unfold resetTargetSize. destruct (allServers m (id n)); reflexivity. Qed.

(** Every call that returns either failed its check and left the node
    group as it was, or passed it, returned [nil] and left the node group as
    [resetTargetSize] made it. *)
Lemma DeleteNodes_returned m sched nodes n o :
  DeleteNodes m sched nodes n = Some o →
  (ret o ≠ None ∧ group o = n ∧ sub (targetSize n) (len nodes) < minSize n) ∨
  (ret o = None ∧ minSize n ≤ sub (targetSize n) (len nodes) ∧
   group o = (resetTargetSize m (neg (len nodes)) n).2).
Proof.
  unfold DeleteNodes, MinSize.
  destruct (Z.ltb_spec (sub (targetSize n) (len nodes)) (minSize n)) as [Hlow|Hok].
  { intros [= <-]. left. repeat split; [discriminate|exact Hlow]. }
  destruct (all_done _); [|discriminate].
  destruct (resetTargetSize m (neg (len nodes)) n) as [evs n'].
  intros [= <-]. right. repeat split. exact Hok.
Qed.

(** Run in turn, the goroutines all finish and the call returns. *)
Lemma DeleteNodes_in_turn m nodes n :
  minSize n ≤ sub (targetSize n) (len nodes) →
  ∃ evs, DeleteNodes m (seq 0 (length nodes)) nodes n =
    Some {| ret := None;
            group := (resetTargetSize m (neg (len nodes)) n).2;
            events := evs |}.
Proof.
  intros Hok. unfold DeleteNodes, MinSize.
  destruct (Z.ltb_spec (sub (targetSize n) (len nodes)) (minSize n)); [lia|].
  destruct (run_in_turn_delete m nodes (length nodes) []
              (sub (targetSize n) (len nodes)) [EvLock]) as [tr Hrun];
    [cbn; lia|].
  cbn [length app] in Hrun. rewrite Hrun.
  unfold all_done. cbn [pool trace]. rewrite all_done_replicate.
  destruct (resetTargetSize m (neg (len nodes)) n) as [evs n'].
  eexists. reflexivity.
Qed.

(** What [DeleteNodes] leaves as the target size once its check has passed:
    the number of servers listed when the list can be had, and
    [targetSize + len(nodes)] when it cannot. *)
Lemma DeleteNodes_reconciles m sched nodes n o :
  DeleteNodes m sched nodes n = Some o → ret o = None →
  (∀ listed, allServers m (id n) = inl listed →
             targetSize (group o) = len listed) ∧
  (∀ err, allServers m (id n) = inr err →
          targetSize (group o) = add (targetSize n) (len nodes)).
Proof.
  intros Ho Hret.
  destruct (DeleteNodes_returned m sched nodes n o Ho) as [[Hne _]|(_ & _ & ->)];
    [congruence|].
  rewrite resetTargetSize_group.
  split; intros ? ->; [reflexivity|]. cbn. apply sub_neg.
Qed.

(** C2 fails on the code: a pool of three from which one node is deleted
    while the servers cannot be listed. [resetTargetSize] subtracts the
    [-1] it is given, so the target size becomes 4; the claim has
    3 - 1 = 2. *)
Theorem DeleteNodes_relist_failure_adds :
  allServers manager_no_list (id pool_a) = inr (ProviderError "unavailable") ∧
  sub (targetSize pool_a) (len [node "a"]) = 2 ∧
  DeleteNodes manager_no_list [0]%nat [node "a"] pool_a =
    Some {| ret := None;
            group := set_targetSize 4 pool_a;
            events := [EvLock; EvDeleteByNode (node "a"); EvServers;
                       EvAllServers "pool-a"; EvUnlock] |}.
Proof. repeat split. Qed.

End ScaleDown.

(** ** The bounds of the pool *)

Section Bounds.
Import Hetzner Examples.

(** C1, the claim as written, fails for [DeleteNodes]: a pool of three, at
    least one required, whose provider lists no server after one node was
    deleted. The call sets the target size to the number listed, 0, below
    [minSize]. *)
Lemma DeleteNodes_relist_below_minSize :
  valid_pool pool_a ∧
  ∃ o, DeleteNodes (manager_ok 0) [0]%nat [node "a"] pool_a = Some o ∧
       ret o = None ∧ targetSize (group o) = 0 ∧ ¬ within_bounds (group o).
Proof.
  split.
  - repeat split; discriminate.
  - eexists. split; [reflexivity|].
    split; [reflexivity|]. split; [reflexivity|].
    intros [Hmin _]. apply Hmin. reflexivity.
Qed.

(** C1, amended: for a pool with [minSize ≤ targetSize ≤ maxSize], after a
    call of [IncreaseSize] that returns (and whose [targetSize + delta]
    fits Go's [int]) the target size is within the bounds again, whichever
    creations failed and however the goroutines were scheduled; a call of
    [DeleteNodes] that returns an error leaves the pool as it was; and after
    a call of [DeleteNodes] that passed its check and could list the pool's
    servers, the target size is the number of servers listed, so it is
    within the bounds exactly when that number is. *)
Theorem targetSize_bounds_after_call (m : hetznerManager) (sched : list nat)
    (n : hetznerNodeGroup) :
  valid_pool n →
  (∀ delta o, targetSize n + delta ≤ max_int →
      IncreaseSize m sched delta n = Some o → within_bounds (group o)) ∧
  (∀ nodes o, DeleteNodes m sched nodes n = Some o → ret o ≠ None →
      group o = n ∧ within_bounds (group o)) ∧
  (∀ nodes o listed, DeleteNodes m sched nodes n = Some o → ret o = None →
      allServers m (id n) = inl listed →
      targetSize (group o) = len listed ∧
      (within_bounds (group o) ↔ minSize n ≤ len listed ≤ maxSize n)).
Proof.
  intros (Hmin & Hmax & Hb). unfold within_bounds, in_range in *.
  split; [|split].
  - intros delta o Hfit Ho.
    destruct (IncreaseSize_returned m sched delta n o Ho)
      as [[_ ->]|(_ & Hpos & Hle & d & Hd & _ & ->)]; [exact Hb|].
    pose proof (failures_le m n 0 (Z.to_nat delta)).
    cbn. unfold add in Hle.
    rewrite wrap_in_range in Hle by (unfold in_range; lia).
    rewrite wrap_in_range by (unfold in_range; lia). lia.
  - intros nodes o Ho Hret.
    destruct (DeleteNodes_returned m sched nodes n o Ho) as [(_ & -> & _)|[Hnil _]];
      [split; [reflexivity|exact Hb]|congruence].
  - intros nodes o listed Ho Hret Hlist.
    destruct (DeleteNodes_returned m sched nodes n o Ho) as [[Hne _]|(_ & _ & ->)];
      [congruence|].
    rewrite resetTargetSize_group, Hlist. cbn. split; [reflexivity|tauto].
Qed.

Lemma targetSize_bounds_after_call_witness :
  valid_pool pool_a ∧
  (∃ o, IncreaseSize (manager_failing [1]%nat) [0; 1; 1; 1]%nat 2 pool_a = Some o ∧
        targetSize (group o) = 4 ∧ within_bounds (group o)) ∧
  (∃ o, DeleteNodes (manager_ok 2) [0]%nat [node "a"] pool_a = Some o ∧
        targetSize (group o) = 2 ∧ within_bounds (group o)).
Proof.
  assert (Hvalid : valid_pool pool_a).
  { repeat split; discriminate. }
  split; [exact Hvalid|]. split.
  - eexists. split; [reflexivity|]. split; [reflexivity|].
    apply (proj1 (targetSize_bounds_after_call (manager_failing [1]%nat)
                    [0; 1; 1; 1]%nat pool_a Hvalid) 2);
      [discriminate|reflexivity].
  - eexists. split; [reflexivity|]. split; [reflexivity|].
    apply (proj2 (proj2 (targetSize_bounds_after_call (manager_ok 2)
                           [0]%nat pool_a Hvalid))
             [node "a"] _ (server <$> seq 0 2));
      [reflexivity|reflexivity|reflexivity|split; discriminate].
Defined.

End Bounds.

(** ** What [createServer] asks of the provider *)

Section CreateServer.
Import Hetzner Examples Traces.

Lemma create_requests_cons e evs :
  create_requests (e :: evs) =
  match e with
  | EvServerCreate i _ => i :: create_requests evs
  | _ => create_requests evs
  end.
Proof. destruct e; reflexivity. Qed.

Lemma create_requests_app evs1 evs2 :
  create_requests (evs1 ++ evs2) = create_requests evs1 ++ create_requests evs2.
Proof. apply omap_app. Qed.

Lemma deleted_nodes_cons e evs :
  deleted_nodes (e :: evs) =
  match e with
  | EvDeleteByNode node => node :: deleted_nodes evs
  | _ => deleted_nodes evs
  end.
Proof. destruct e; reflexivity. Qed.

Lemma deleted_nodes_app evs1 evs2 :
  deleted_nodes (evs1 ++ evs2) = deleted_nodes evs1 ++ deleted_nodes evs2.
Proof. apply omap_app. Qed.

(** Calls that follow a create request are no create requests, no node
    deletions and not on the lock. *)
Lemma followups evs :
  Forall (λ e, is_followup e = true) evs →
  create_requests evs = [] ∧ deleted_nodes evs = [] ∧
  Forall (λ e, is_lock_event e = false) evs.
Proof.
  induction 1 as [|e evs He _ (IH1 & IH2 & IH3)]; [repeat split; constructor|].
  rewrite create_requests_cons, deleted_nodes_cons.
  destruct e; try discriminate He; repeat split; try assumption;
    constructor; (reflexivity || assumption).
Qed.

(** The calls of [createServer]: the create request, then its
    follow-ups. *)
Lemma createServer_calls m n i :
  ∃ rest, (createServer m n i).1 = EvServerCreate i (createOpts n) :: rest ∧
          Forall (λ e, is_followup e = true) rest.
Proof.
  unfold createServer.
  destruct (serverCreate m i (createOpts n)) as [r|err].
  - unfold waitForServerAction.
    destruct (select _ _ _) as [[e|]|]; cbn [fst];
      eexists; (split; [reflexivity|]); repeat constructor.
  - exists []. split; [reflexivity|constructor].
Qed.

(** [createServer] by the answer to its request and the result of the
    wait. *)
Lemma createServer_unfold m n i :
  createServer m n i =
  match serverCreate m i (createOpts n) with
  | inr cause =>
      ([EvServerCreate i (createOpts n)],
       Some (ErrCouldNotCreate (instanceType n) (region n) cause))
  | inl r =>
      let server := Result_Server r in
      match (waitForServerAction m (Server_Name server) (Result_Action r)).2 with
      | Some cause =>
          ([EvServerCreate i (createOpts n); EvWatchProgress (Result_Action r);
            EvDeleteServer server],
           Some (ErrFailedToStart (Server_Name server) cause))
      | None =>
          ([EvServerCreate i (createOpts n); EvWatchProgress (Result_Action r)], None)
      end
  end.
Proof.
  unfold createServer.
  destruct (serverCreate m i (createOpts n)) as [r|cause]; [|reflexivity].
  unfold waitForServerAction. cbn [snd].
  destruct (select _ _ _) as [[e|]|]; reflexivity.
Qed.

(** X1: [createServer] sends one create request, with the options of the
    pool. It returns [nil] exactly when the provider accepted the request
    and the wait for the action returned [nil]. A refused request is
    followed by no other call; a server that was created but whose action
    failed or timed out is deleted again, and no other server ever is. *)
Theorem createServer_cleans_up (m : hetznerManager) (n : hetznerNodeGroup) (i : nat) :
  let evs := (createServer m n i).1 in
  let err := (createServer m n i).2 in
  hd_error evs = Some (EvServerCreate i (createOpts n)) ∧
  create_requests evs = [i] ∧
  (err = None ↔
     ∃ r, serverCreate m i (createOpts n) = inl r ∧
          (waitForServerAction m (Server_Name (Result_Server r)) (Result_Action r)).2 = None) ∧
  (∀ cause, serverCreate m i (createOpts n) = inr cause →
     evs = [EvServerCreate i (createOpts n)] ∧
     err = Some (ErrCouldNotCreate (instanceType n) (region n) cause)) ∧
  (∀ r, serverCreate m i (createOpts n) = inl r →
     deleted_servers evs = match err with Some _ => [Result_Server r] | None => [] end ∧
     ∀ cause, (waitForServerAction m (Server_Name (Result_Server r)) (Result_Action r)).2
                = Some cause →
              err = Some (ErrFailedToStart (Server_Name (Result_Server r)) cause)).
Proof.
  cbn zeta. rewrite createServer_unfold.
  destruct (serverCreate m i (createOpts n)) as [r|refusal].
  - cbn zeta.
    destruct (waitForServerAction m (Server_Name (Result_Server r)) (Result_Action r)).2
      as [cause|] eqn:Hwait; cbn [fst snd].
    + split; [reflexivity|]. split; [reflexivity|]. split; [|split].
      * split; [discriminate|]. intros (r' & [= <-] & Hnil). congruence.
      * intros ? [=].
      * intros r' [= <-]. split; [reflexivity|].
        intros cause' Hcause. congruence.
    + split; [reflexivity|]. split; [reflexivity|]. split; [|split].
      * split; [|reflexivity]. intros _. exists r. split; [reflexivity|exact Hwait].
      * intros ? [=].
      * intros r' [= <-]. split; [reflexivity|].
        intros cause' Hcause. congruence.
  - cbn [fst snd]. split; [reflexivity|]. split; [reflexivity|]. split; [|split].
    + split; [discriminate|]. intros (r & [=] & _).
    + intros cause [= <-]. split; reflexivity.
    + intros r [=].
Qed.

Lemma createServer_cleans_up_witness :
  Traces.deleted_servers (createServer manager_action_error pool_a 0).1 = [server 0] ∧
  (createServer manager_action_error pool_a 0).2 =
    Some (ErrFailedToStart "pool-a-node"
            (ErrWaitingForAction "pool-a-node" (ProviderError "action failed"))).
Proof.
  pose proof (createServer_cleans_up manager_action_error pool_a 0)
    as (_ & _ & _ & _ & Hcreated).
  destruct (Hcreated {| Result_Server := server 0; Result_Action := {| Action_ID := 0 |} |}
              eq_refl) as [Hdeleted Hwrapped].
  split; [exact Hdeleted|]. apply Hwrapped. reflexivity.
Defined.

End CreateServer.

(** ** The calls of [IncreaseSize] *)

Section ScaleUpCalls.
Import Hetzner Examples Traces.

Lemma all_done_lookup (gs : list goroutine) i g :
  forallb is_done gs = true → gs !! i = Some g → g = GoDone.
Proof.
  revert i. induction gs as [|g0 gs IH]; intros i Hdone Hi; [discriminate Hi|].
  cbn in Hdone. apply andb_prop in Hdone as [Hg0 Hgs].
  destruct i as [|i]; cbn in Hi.
  - injection Hi as <-. destruct g0; (discriminate Hg0 || reflexivity).
  - eauto.
Qed.

Lemma step_create_tracked m n i c :
  creates_tracked n c → creates_tracked n (step_create m n i c).
Proof.
  intros ((middle & Htrace & Hmiddle) & Hopts & Hnodes & Hnodup & Hin).
  unfold step_create.
  destruct (pool c !! i) as [g|] eqn:Hi.
  2:{ split; [exists middle; split; assumption|]. repeat split; eauto; apply Hin. }
  assert (Hlt : (i < length (pool c))%nat) by (eapply lookup_lt_Some; eauto).
  assert (Hkeep : ∀ g', g ≠ GoStart → g' ≠ GoStart →
            ∀ j, j ∈ create_requests (trace c) ↔
                 ∃ g0, <[i := g']> (pool c) !! j = Some g0 ∧ g0 ≠ GoStart).
  { intros g' Hg Hg' j. rewrite Hin.
    destruct (decide (i = j)) as [->|Hne].
    - rewrite list_lookup_insert_eq by exact Hlt. rewrite Hi. split; eauto.
    - rewrite list_lookup_insert_ne by exact Hne. reflexivity. }
  destruct g as [| |v|].
  - destruct (createServer_calls m n i) as (rest & Hcalls & Hfollow).
    destruct (followups rest Hfollow) as (Hrest & Hrestn & Hrestl).
    destruct (createServer m n i) as [evs err]. cbn [fst] in Hcalls. subst evs.
    unfold creates_tracked. cbn [trace pool].
    assert (Hnew : create_requests (trace c ++ EvServerCreate i (createOpts n) :: rest) =
                   create_requests (trace c) ++ [i]).
    { rewrite create_requests_app, create_requests_cons, Hrest. reflexivity. }
    assert (Hfresh : i ∉ create_requests (trace c)).
    { rewrite Hin, Hi. intros (g & [= <-] & Hg). congruence. }
    rewrite Hnew. split; [|split; [|split; [|split]]].
    + exists (middle ++ EvServerCreate i (createOpts n) :: rest).
      split; [rewrite Htrace; reflexivity|].
      apply Forall_app. split; [exact Hmiddle|]. constructor; [reflexivity|exact Hrestl].
    + apply Forall_app. split; [exact Hopts|]. constructor.
      * intros ? ? [= _ <-]. reflexivity.
      * eapply Forall_impl; [exact Hfollow|]. cbn. intros e He ? ? ->. discriminate He.
    + rewrite deleted_nodes_app, deleted_nodes_cons, Hnodes, Hrestn. reflexivity.
    + apply NoDup_app. split; [exact Hnodup|]. split; [|apply NoDup_singleton].
      intros j Hj Hji. apply list_elem_of_singleton in Hji as ->. contradiction.
    + intros j. rewrite elem_of_app, list_elem_of_singleton, Hin.
      destruct (decide (i = j)) as [->|Hne].
      * rewrite list_lookup_insert_eq by exact Hlt. split; [|auto].
        intros _. eexists. split; [reflexivity|]. destruct err; discriminate.
      * rewrite list_lookup_insert_ne by exact Hne. split; [|auto].
        intros [Hj|Hj]; [exact Hj|congruence].
  - unfold creates_tracked. cbn [trace pool].
    split; [exists middle; split; assumption|].
    split; [exact Hopts|]. split; [exact Hnodes|]. split; [exact Hnodup|].
    apply Hkeep; discriminate.
  - unfold creates_tracked. cbn [trace pool].
    split; [exists middle; split; assumption|].
    split; [exact Hopts|]. split; [exact Hnodes|]. split; [exact Hnodup|].
    apply Hkeep; discriminate.
  - split; [exists middle; split; assumption|]. repeat split; eauto; apply Hin.
Qed.

Lemma run_create_tracked m n sched c :
  creates_tracked n c → creates_tracked n (run (step_create m n) sched c).
Proof.
  revert c. induction sched as [|i sched IH]; intros c Hc; [exact Hc|].
  change (run (step_create m n) (i :: sched) c)
    with (run (step_create m n) sched (step_create m n i c)).
  apply IH, step_create_tracked, Hc.
Qed.

(** The calls of a call that returned: none, or the lock around the lookup
    of the server type, when it failed; and when it returned [nil], the
    calls of goroutines that are all done, then the refresh of the server
    cache and the release of the lock. *)
Lemma IncreaseSize_calls m sched delta n o :
  IncreaseSize m sched delta n = Some o →
  (ret o ≠ None ∧
   (events o = [] ∨ events o = [EvLock; EvGetServerType (instanceType n); EvUnlock])) ∨
  (ret o = None ∧
   ∃ c, events o = trace c ++ [EvServers; EvUnlock] ∧ creates_tracked n c ∧
        forallb is_done (pool c) = true ∧ length (pool c) = Z.to_nat delta).
Proof.
  unfold IncreaseSize, MaxSize, serverTypeAvailable.
  destruct (Z.leb_spec delta 0) as [|Hpos].
  { intros [= <-]. left. split; [discriminate|left; reflexivity]. }
  destruct (Z.gtb_spec (add (targetSize n) delta) (maxSize n)) as [|Hmax].
  { intros [= <-]. left. split; [discriminate|left; reflexivity]. }
  destruct (getServerType m (instanceType n)) as [serverType|err].
  2:{ intros [= <-]. left. split; [discriminate|right; reflexivity]. }
  destruct (pricedIn (region n) (Pricings serverType)).
  2:{ intros [= <-]. left. split; [discriminate|right; reflexivity]. }
  set (c0 := {| shared := add (targetSize n) delta;
                pool := replicate (Z.to_nat delta) GoStart;
                trace := EvLock :: [EvGetServerType (instanceType n)] |}).
  assert (Hinv : creates_tracked n (run (step_create m n) sched c0)).
  { apply run_create_tracked. unfold creates_tracked. cbn [pool trace c0].
    split; [|split; [|split; [|split]]].
    - eexists. split; [reflexivity|]. repeat constructor.
    - repeat constructor; intros ? ? [=].
    - reflexivity.
    - constructor.
    - intros i. cbn. split; [intros Hi; inversion Hi|].
      intros (g & Hg & Hne). apply lookup_replicate in Hg as [-> _]. congruence. }
  pose proof (run_create_length m n sched c0) as Hlen.
  cbn [pool c0] in Hlen. rewrite length_replicate in Hlen.
  unfold all_done.
  destruct (forallb is_done (pool (run (step_create m n) sched c0))) eqn:Hdone;
    [|discriminate].
  intros [= <-]. right. split; [reflexivity|].
  exists (run (step_create m n) sched c0). cbn [events].
  split; [reflexivity|]. split; [exact Hinv|]. split; [exact Hdone|exact Hlen].
Qed.

(** X2: a call of [IncreaseSize] that returns [nil] has asked for one
    server for each of its [delta] goroutines, whatever the schedule and
    whichever creations failed; a call that returns an error has asked for
    none. Every create request carries the region, the server type and the
    group label of the pool, and no call of [IncreaseSize] deletes a
    node. *)
Theorem IncreaseSize_asks_for_delta_servers (m : hetznerManager) (sched : list nat)
    (delta : Z) (n : hetznerNodeGroup) (o : outcome) :
  IncreaseSize m sched delta n = Some o →
  (ret o = None →
     create_requests (events o) ≡ₚ seq 0 (Z.to_nat delta) ∧
     Z.of_nat (length (create_requests (events o))) = delta) ∧
  (ret o ≠ None → create_requests (events o) = []) ∧
  (∀ i opts, EvServerCreate i opts ∈ events o → opts = createOpts n) ∧
  deleted_nodes (events o) = [].
Proof.
  intros Ho.
  assert (Hpos : ret o = None → 0 < delta).
  { intros Hret.
    destruct (IncreaseSize_returned m sched delta n o Ho) as [[Hne _]|(_ & Hpos & _)];
      [congruence|exact Hpos]. }
  destruct (IncreaseSize_calls m sched delta n o Ho)
    as [(Herr & [->| ->])|(Hnil & c & -> & Htracked & Hdone & Hlen)].
  - repeat split; try congruence; try reflexivity. intros ? ? Hin. inversion Hin.
  - repeat split; try congruence; try reflexivity.
    intros i opts Hin. rewrite !elem_of_cons, elem_of_nil in Hin.
    destruct Hin as [Hin|[Hin|[Hin|[]]]]; discriminate Hin.
  - destruct Htracked as (_ & Hopts & Hnodes & Hnodup & Hin).
    assert (Hsame : create_requests (trace c ++ [EvServers; EvUnlock]) =
                    create_requests (trace c))
      by (rewrite create_requests_app; apply app_nil_r).
    rewrite Hsame, deleted_nodes_app, Hnodes.
    assert (Hperm : create_requests (trace c) ≡ₚ seq 0 (Z.to_nat delta)).
    { apply NoDup_Permutation; [exact Hnodup|apply NoDup_seq|].
      intros i. rewrite Hin, elem_of_seq, <- Hlen. split.
      - intros (g & Hg & _). apply lookup_lt_Some in Hg. lia.
      - intros [_ Hlt]. destruct (lookup_lt_is_Some_2 (pool c) i) as [g Hg]; [lia|].
        exists g. split; [exact Hg|].
        rewrite (all_done_lookup _ _ _ Hdone Hg). discriminate. }
    split; [|split; [congruence|split; [|reflexivity]]].
    + intros _. split; [exact Hperm|].
      rewrite Hperm, length_seq. specialize (Hpos Hnil). lia.
    + intros i opts Hin'. apply elem_of_app in Hin' as [Hin'|Hin'].
      * rewrite Forall_forall in Hopts. eapply Hopts; [exact Hin'|reflexivity].
      * rewrite !elem_of_cons, elem_of_nil in Hin'.
        destruct Hin' as [Hin'|[Hin'|[]]]; discriminate Hin'.
Qed.

Lemma IncreaseSize_asks_for_delta_servers_witness :
  ∃ o, IncreaseSize (manager_failing [1]%nat) [1; 0; 1; 1]%nat 2 pool_a = Some o ∧
       create_requests (events o) = [1; 0]%nat ∧
       create_requests (events o) ≡ₚ seq 0 2.
Proof.
  eexists. split; [reflexivity|]. split; [reflexivity|].
  apply (proj1 (IncreaseSize_asks_for_delta_servers (manager_failing [1]%nat)
                  [1; 0; 1; 1]%nat 2 pool_a _ eq_refl)).
  reflexivity.
Defined.

(** X3: a call of [IncreaseSize] that passed the checks on [delta] and
    [maxSize] and cannot look the server type up returns the check-failed
    error that wraps the cause; the pool is as before, and the lock and the
    lookup are the only calls made. *)
Theorem IncreaseSize_lookup_failure (m : hetznerManager) (sched : list nat)
    (delta : Z) (n : hetznerNodeGroup) (cause : error) :
  0 < delta → add (targetSize n) delta ≤ maxSize n →
  getServerType m (instanceType n) = inr cause →
  IncreaseSize m sched delta n =
    Some {| ret := Some (ErrTypeCheckFailed (instanceType n) (region n) cause);
            group := n;
            events := [EvLock; EvGetServerType (instanceType n); EvUnlock] |}.
Proof.
  intros Hpos Hmax Htype. unfold IncreaseSize, MaxSize, serverTypeAvailable.
  destruct (Z.leb_spec delta 0); [lia|].
  destruct (Z.gtb_spec (add (targetSize n) delta) (maxSize n)); [lia|].
  rewrite Htype. reflexivity.
Qed.

Lemma IncreaseSize_lookup_failure_witness :
  IncreaseSize MoreExamples.manager_no_type [0]%nat 1 pool_a =
    Some {| ret := Some (ErrTypeCheckFailed "cx21" "fsn1"
                           (ProviderError "server type not found"));
            group := pool_a;
            events := [EvLock; EvGetServerType "cx21"; EvUnlock] |}.
Proof.
  assert (Hpos : 0 < 1) by lia.
  assert (Hmax : add (targetSize pool_a) 1 ≤ maxSize pool_a) by discriminate.
  exact (IncreaseSize_lookup_failure MoreExamples.manager_no_type [0]%nat 1 pool_a
           _ Hpos Hmax eq_refl).
Defined.

End ScaleUpCalls.

(** ** The calls of [DeleteNodes] *)

Section ScaleDownCalls.
Import Hetzner Examples Traces.

Lemma step_delete_length m nodes i c :
  length (pool (step_delete m nodes i c)) = length (pool c).
Proof.
  unfold step_delete.
  destruct (pool c !! i) as [[| |v|]|]; try reflexivity.
  destruct (nodes !! i); [apply length_insert|reflexivity].
Qed.

Lemma run_delete_length m nodes sched c :
  length (pool (run (step_delete m nodes) sched c)) = length (pool c).
Proof.
  revert c. induction sched as [|i sched IH]; intros c; [reflexivity|].
  change (run (step_delete m nodes) (i :: sched) c)
    with (run (step_delete m nodes) sched (step_delete m nodes i c)).
  rewrite IH. apply step_delete_length.
Qed.

Lemma step_delete_tracked m nodes i c :
  deletes_tracked nodes c → deletes_tracked nodes (step_delete m nodes i c).
Proof.
  intros ((middle & Htrace & Hmiddle) & Hcreates & order & Hnodup & Hin & Hdeleted).
  unfold step_delete.
  destruct (pool c !! i) as [g|] eqn:Hi.
  2:{ split; [exists middle; split; assumption|]. split; [exact Hcreates|].
      exists order. repeat split; eauto; apply Hin. }
  assert (Hlt : (i < length (pool c))%nat) by (eapply lookup_lt_Some; eauto).
  destruct g as [| |v|];
    try (split; [exists middle; split; assumption|]; split; [exact Hcreates|];
         exists order; repeat split; eauto; apply Hin).
  destruct (nodes !! i) as [node|] eqn:Hnode.
  2:{ split; [exists middle; split; assumption|]. split; [exact Hcreates|].
      exists order. repeat split; eauto; apply Hin. }
  unfold deletes_tracked. cbn [trace pool].
  assert (Hfresh : i ∉ order) by (rewrite Hin, Hi; discriminate).
  split; [|split].
  - exists (middle ++ [EvDeleteByNode node]). split; [rewrite Htrace; reflexivity|].
    apply Forall_app. split; [exact Hmiddle|]. repeat constructor.
  - rewrite create_requests_app, Hcreates. reflexivity.
  - exists (order ++ [i]). split; [|split].
    + apply NoDup_app. split; [exact Hnodup|]. split; [|apply NoDup_singleton].
      intros j Hj Hji. apply list_elem_of_singleton in Hji as ->. contradiction.
    + intros j. rewrite elem_of_app, list_elem_of_singleton, Hin.
      destruct (decide (i = j)) as [->|Hne].
      * rewrite list_lookup_insert_eq by exact Hlt. split; auto.
      * rewrite list_lookup_insert_ne by exact Hne. split; [|auto].
        intros [Hj|Hj]; [exact Hj|congruence].
    + rewrite deleted_nodes_app, Hdeleted, omap_app. cbn. rewrite Hnode. reflexivity.
Qed.

Lemma run_delete_tracked m nodes sched c :
  deletes_tracked nodes c → deletes_tracked nodes (run (step_delete m nodes) sched c).
Proof.
  revert c. induction sched as [|i sched IH]; intros c Hc; [exact Hc|].
  change (run (step_delete m nodes) (i :: sched) c)
    with (run (step_delete m nodes) sched (step_delete m nodes i c)).
  apply IH, step_delete_tracked, Hc.
Qed.

(** Reading a list at its positions, in order, gives the list. *)
Lemma omap_lookup_seq {A} (l : list A) : ∀ before,
  omap (λ i, (before ++ l) !! i) (seq (length before) (length l)) = l.
Proof.
  induction l as [|x l IH]; intros before; [reflexivity|].
  cbn [length seq omap list_omap]. rewrite list_lookup_middle by reflexivity.
  f_equal.
  replace (before ++ x :: l) with ((before ++ [x]) ++ l)
    by (rewrite <- app_assoc; reflexivity).
  replace (S (length before)) with (length (before ++ [x]))
    by (rewrite length_app; cbn; lia).
  apply IH.
Qed.

(** The calls of a call that returned: the lock alone when the check
    failed; otherwise the lock, the calls of goroutines that are all done,
    the refresh of the server cache, the listing of the pool's servers and
    the release of the lock. *)
Lemma DeleteNodes_calls m sched nodes n o :
  DeleteNodes m sched nodes n = Some o →
  (ret o ≠ None ∧ events o = [EvLock; EvUnlock]) ∨
  (ret o = None ∧
   ∃ c, events o = trace c ++ [EvServers; EvAllServers (id n); EvUnlock] ∧
        deletes_tracked nodes c ∧
        forallb is_done (pool c) = true ∧ length (pool c) = length nodes).
Proof.
  unfold DeleteNodes, MinSize.
  destruct (Z.ltb_spec (sub (targetSize n) (len nodes)) (minSize n)) as [Hlow|Hok].
  { intros [= <-]. left. split; [discriminate|reflexivity]. }
  set (c0 := {| shared := sub (targetSize n) (len nodes);
                pool := replicate (length nodes) GoStart;
                trace := [EvLock] |}).
  assert (Hinv : deletes_tracked nodes (run (step_delete m nodes) sched c0)).
  { apply run_delete_tracked. unfold deletes_tracked. cbn [pool trace c0].
    split; [|split].
    - exists []. split; [reflexivity|constructor].
    - reflexivity.
    - exists []. split; [constructor|]. split; [|reflexivity].
      intros i. split; [intros Hi; inversion Hi|].
      intros Hg. apply lookup_replicate in Hg as [Hg _]. discriminate Hg. }
  pose proof (run_delete_length m nodes sched c0) as Hlen.
  cbn [pool c0] in Hlen. rewrite length_replicate in Hlen.
  unfold all_done.
  destruct (forallb is_done (pool (run (step_delete m nodes) sched c0))) eqn:Hdone;
    [|discriminate].
  unfold resetTargetSize.
  destruct (allServers m (id n)); intros [= <-]; right; (split; [reflexivity|]);
    exists (run (step_delete m nodes) sched c0); cbn [events];
    (split; [reflexivity|]); (split; [exact Hinv|]); (split; [exact Hdone|exact Hlen]).
Qed.

(** A call of [DeleteNodes] that returns [nil] has asked for the deletion
    of each of its nodes once; a call that returns an error has asked for
    none. No call of [DeleteNodes] asks for a server. *)
Lemma DeleteNodes_deletes_each_node_once (m : hetznerManager) (sched : list nat)
    (nodes : list Node) (n : hetznerNodeGroup) (o : outcome) :
  DeleteNodes m sched nodes n = Some o →
  (ret o = None → deleted_nodes (events o) ≡ₚ nodes) ∧
  (ret o ≠ None → deleted_nodes (events o) = []) ∧
  create_requests (events o) = [].
Proof.
  intros Ho.
  destruct (DeleteNodes_calls m sched nodes n o Ho)
    as [(Herr & ->)|(Hnil & c & -> & Htracked & Hdone & Hlen)].
  - repeat split; try congruence; reflexivity.
  - destruct Htracked as (_ & Hcreates & order & Hnodup & Hin & Hdeleted).
    rewrite deleted_nodes_app, create_requests_app, Hcreates, Hdeleted.
    cbn. rewrite app_nil_r.
    split; [|split; [congruence|reflexivity]]. intros _.
    assert (Hperm : order ≡ₚ seq 0 (length nodes)).
    { apply NoDup_Permutation; [exact Hnodup|apply NoDup_seq|].
      intros i. rewrite Hin, elem_of_seq, <- Hlen. split.
      - intros Hg. apply lookup_lt_Some in Hg. lia.
      - intros [_ Hlt]. destruct (lookup_lt_is_Some_2 (pool c) i) as [g Hg]; [lia|].
        rewrite Hg, (all_done_lookup _ _ _ Hdone Hg). reflexivity. }
    pose proof (omap_lookup_seq nodes []) as Hseq. cbn [app length] in Hseq.
    rewrite Hperm, Hseq. reflexivity.
Qed.

Lemma deleted_nodes_deletions ns :
  deleted_nodes (EvDeleteByNode <$> ns) = ns.
Proof. induction ns as [|node ns IH]; [reflexivity|]. cbn. f_equal. exact IH. Qed.

(** The goroutines of [DeleteNodes] make no call but node deletions. *)
Lemma run_delete_only_deletes m nodes sched : ∀ c,
  (∃ ns, trace c = EvLock :: (EvDeleteByNode <$> ns)) →
  ∃ ns, trace (run (step_delete m nodes) sched c) = EvLock :: (EvDeleteByNode <$> ns).
Proof.
  induction sched as [|i sched IH]; intros c Hc; [exact Hc|].
  change (run (step_delete m nodes) (i :: sched) c)
    with (run (step_delete m nodes) sched (step_delete m nodes i c)).
  apply IH. unfold step_delete.
  destruct (pool c !! i) as [[| |v|]|]; try exact Hc.
  destruct (nodes !! i) as [node|]; [|exact Hc].
  destruct Hc as [ns Hns]. exists (ns ++ [node]). cbn [trace].
  rewrite Hns, fmap_app. reflexivity.
Qed.

(** X4: the order of the calls of a [DeleteNodes] that returns [nil]: the
    lock, the deletions of the nodes (each node once, in some order), then
    the refresh of the server cache, then the listing of the pool's servers
    from which the target size is taken, then the release of the lock. The
    servers are listed only after every deletion has been asked for. *)
Theorem DeleteNodes_lists_after_deleting (m : hetznerManager) (sched : list nat)
    (nodes : list Node) (n : hetznerNodeGroup) (o : outcome) :
  DeleteNodes m sched nodes n = Some o → ret o = None →
  ∃ ns, ns ≡ₚ nodes ∧
        events o = EvLock :: (EvDeleteByNode <$> ns) ++
                   [EvServers; EvAllServers (id n); EvUnlock].
Proof.
  intros Ho Hnil.
  pose proof (proj1 (DeleteNodes_deletes_each_node_once m sched nodes n o Ho) Hnil)
    as Hperm.
  revert Ho Hperm. unfold DeleteNodes, MinSize.
  destruct (Z.ltb_spec (sub (targetSize n) (len nodes)) (minSize n)) as [Hlow|Hok].
  { intros [= <-]. discriminate Hnil. }
  destruct (run_delete_only_deletes m nodes sched
              {| shared := sub (targetSize n) (len nodes);
                 pool := replicate (length nodes) GoStart;
                 trace := [EvLock] |}) as [ns Hns]; [exists []; reflexivity|].
  destruct (all_done _); [|discriminate].
  unfold resetTargetSize.
  destruct (allServers m (id n)); intros [= <-]; cbn [events]; rewrite Hns;
    intros Hperm; exists ns;
    (split; [|reflexivity]);
    cbn in Hperm; rewrite deleted_nodes_app, deleted_nodes_deletions in Hperm;
    cbn in Hperm; rewrite app_nil_r in Hperm; exact Hperm.
Qed.

Lemma DeleteNodes_lists_after_deleting_witness :
  ∃ ns, ns ≡ₚ [node "a"; node "b"] ∧
        [EvLock; EvDeleteByNode (node "b"); EvDeleteByNode (node "a");
         EvServers; EvAllServers "pool-a"; EvUnlock] =
        EvLock :: (EvDeleteByNode <$> ns) ++ [EvServers; EvAllServers (id pool_a); EvUnlock].
Proof.
  exact (DeleteNodes_lists_after_deleting manager_no_list [1; 0]%nat
           [node "a"; node "b"] pool_a _ eq_refl eq_refl).
Defined.

(** X5: the calls of [IncreaseSize] and [DeleteNodes] are made under the
    lock. A call of [IncreaseSize] that returned made no call at all (it
    then returned an error), or took the lock first, released it last and
    did not touch it in between; a call of [DeleteNodes] that returned
    always did the latter, also when it returned an error. *)
Theorem calls_are_under_lock (m : hetznerManager) (sched : list nat)
    (n : hetznerNodeGroup) :
  (∀ delta o, IncreaseSize m sched delta n = Some o →
      (events o = [] ∧ ret o ≠ None) ∨ under_lock (events o)) ∧
  (∀ nodes o, DeleteNodes m sched nodes n = Some o → under_lock (events o)).
Proof.
  split.
  - intros delta o Ho.
    destruct (IncreaseSize_calls m sched delta n o Ho)
      as [(Herr & [->| ->])|(Hnil & c & -> & ((middle & -> & Hmiddle) & _) & _)].
    + left. split; [reflexivity|exact Herr].
    + right. exists [EvGetServerType (instanceType n)]. split; [reflexivity|].
      repeat constructor.
    + right. exists (middle ++ [EvServers]). split.
      * cbn. rewrite <- app_assoc. reflexivity.
      * apply Forall_app. split; [exact Hmiddle|repeat constructor].
  - intros nodes o Ho.
    destruct (DeleteNodes_calls m sched nodes n o Ho)
      as [(Herr & ->)|(Hnil & c & -> & ((middle & -> & Hmiddle) & _) & _)].
    + exists []. split; [reflexivity|constructor].
    + exists (middle ++ [EvServers; EvAllServers (id n)]). split.
      * cbn. rewrite <- app_assoc. reflexivity.
      * apply Forall_app. split; [exact Hmiddle|repeat constructor].
Qed.

Lemma calls_are_under_lock_witness :
  (∃ o, IncreaseSize (manager_failing [0]%nat) [0; 0; 0]%nat 1 pool_a = Some o ∧
        under_lock (events o)) ∧
  (∃ o, DeleteNodes (manager_ok 2) [0]%nat [node "a"] pool_a = Some o ∧
        under_lock (events o)).
Proof.
  split.
  - eexists. split; [reflexivity|].
    destruct (proj1 (calls_are_under_lock (manager_failing [0]%nat) [0; 0; 0]%nat pool_a)
                1 _ eq_refl) as [[Hnone _]|Hlock]; [discriminate Hnone|exact Hlock].
  - eexists. split; [reflexivity|].
    exact (proj2 (calls_are_under_lock (manager_ok 2) [0]%nat pool_a)
             [node "a"] _ eq_refl).
Defined.

(** The goroutines of [DeleteNodes], run in turn, ask for the deletions
    in the order of the nodes. *)
Lemma run_in_turn_delete_calls m nodes : ∀ todo deleted before v tr,
  nodes = deleted ++ todo → length before = length deleted →
  run (step_delete m nodes) (seq (length before) (length todo))
    {| shared := v; pool := before ++ replicate (length todo) GoStart; trace := tr |} =
  {| shared := v; pool := before ++ replicate (length todo) GoDone;
     trace := tr ++ (EvDeleteByNode <$> todo) |}.
Proof.
  induction todo as [|node todo IH]; intros deleted before v tr Hnodes Hlen.
  - cbn. rewrite !app_nil_r. reflexivity.
  - cbn [length seq replicate].
    change (run (step_delete m nodes) (length before :: seq (S (length before)) (length todo)) ?c)
      with (run (step_delete m nodes) (seq (S (length before)) (length todo))
              (step_delete m nodes (length before) c)).
    assert (Hnode : nodes !! length before = Some node)
      by (rewrite Hnodes; apply list_lookup_middle; exact Hlen).
    unfold step_delete at 2. cbn [pool shared trace].
    rewrite list_lookup_middle by reflexivity.
    rewrite Hnode, insert_middle.
    replace (before ++ GoDone :: replicate (length todo) GoStart)
      with ((before ++ [GoDone]) ++ replicate (length todo) GoStart)
      by (rewrite <- app_assoc; reflexivity).
    replace (S (length before)) with (length (before ++ [GoDone]))
      by (rewrite length_app; cbn; lia).
    rewrite (IH (deleted ++ [node]) (before ++ [GoDone]) v (tr ++ [EvDeleteByNode node])).
    + rewrite <- !app_assoc. reflexivity.
    + rewrite Hnodes, <- app_assoc. reflexivity.
    + rewrite !length_app, Hlen. reflexivity.
Qed.

(** X6: a call of [DeleteNodes] that passes its check returns: when the
    goroutines run one after the other it returns [nil], having asked for
    the deletions in the order of the nodes, and leaves the pool as
    [resetTargetSize] makes it. *)
Theorem DeleteNodes_returns_in_turn (m : hetznerManager) (nodes : list Node)
    (n : hetznerNodeGroup) :
  minSize n ≤ sub (targetSize n) (len nodes) →
  DeleteNodes m (seq 0 (length nodes)) nodes n =
    Some {| ret := None;
            group := (resetTargetSize m (neg (len nodes)) n).2;
            events := EvLock :: (EvDeleteByNode <$> nodes) ++
                      [EvServers; EvAllServers (id n); EvUnlock] |}.
Proof.
  intros Hok. unfold DeleteNodes, MinSize.
  destruct (Z.ltb_spec (sub (targetSize n) (len nodes)) (minSize n)); [lia|].
  pose proof (run_in_turn_delete_calls m nodes nodes [] []
                (sub (targetSize n) (len nodes)) [EvLock] eq_refl eq_refl) as Hrun.
  cbn [length app] in Hrun. rewrite Hrun.
  unfold all_done. cbn [pool trace]. rewrite all_done_replicate.
  unfold resetTargetSize. destruct (allServers m (id n)); reflexivity.
Qed.

Lemma DeleteNodes_returns_in_turn_witness :
  DeleteNodes (manager_ok 1) [0; 1]%nat [node "a"; node "b"] pool_a =
    Some {| ret := None;
            group := set_targetSize 1 pool_a;
            events := [EvLock; EvDeleteByNode (node "a"); EvDeleteByNode (node "b");
                       EvServers; EvAllServers "pool-a"; EvUnlock] |}.
Proof.
  apply (DeleteNodes_returns_in_turn (manager_ok 1) [node "a"; node "b"] pool_a).
  discriminate.
Defined.

(** X7: [DeleteNodes] with no node to delete, on a pool whose target size
    is a value of Go's [int] and not below [minSize]: whatever the
    schedule, it deletes nothing but still refreshes the server cache and
    lists the pool's servers; the target size becomes the number of servers
    listed, and stays as it was when they cannot be listed. *)
Theorem DeleteNodes_of_nothing (m : hetznerManager) (sched : list nat)
    (n : hetznerNodeGroup) :
  in_range (targetSize n) → minSize n ≤ targetSize n →
  DeleteNodes m sched [] n =
    Some {| ret := None;
            group := set_targetSize
                       match allServers m (id n) with
                       | inl listed => len listed
                       | inr _ => targetSize n
                       end n;
            events := [EvLock; EvServers; EvAllServers (id n); EvUnlock] |}.
Proof.
  intros Hfits Hmin. unfold DeleteNodes, MinSize.
  assert (Hsub : sub (targetSize n) (len (@nil Node)) = targetSize n).
  { unfold sub, len. cbn. rewrite Z.sub_0_r. apply wrap_in_range, Hfits. }
  rewrite Hsub. destruct (Z.ltb_spec (targetSize n) (minSize n)); [lia|].
  assert (Hrun : ∀ c, pool c = [] → run (step_delete m []) sched c = c).
  { induction sched as [|i sched IH]; intros c Hc; [reflexivity|].
    change (run (step_delete m []) (i :: sched) c)
      with (run (step_delete m []) sched (step_delete m [] i c)).
    assert (Hstep : step_delete m [] i c = c)
      by (unfold step_delete; rewrite Hc; reflexivity).
    rewrite Hstep. apply IH, Hc. }
  cbn [length replicate]. rewrite Hrun by reflexivity.
  unfold all_done, resetTargetSize. cbn [pool forallb trace].
  destruct (allServers m (id n)); [reflexivity|].
  assert (Hneg : sub (targetSize n) (neg (len (@nil Node))) = targetSize n).
  { rewrite sub_neg. unfold add, len. cbn. rewrite Z.add_0_r.
    apply wrap_in_range, Hfits. }
  rewrite Hneg. reflexivity.
Qed.

Lemma DeleteNodes_of_nothing_witness :
  DeleteNodes manager_no_list [0; 5]%nat [] pool_a =
    Some {| ret := None; group := pool_a;
            events := [EvLock; EvServers; EvAllServers "pool-a"; EvUnlock] |}.
Proof.
  apply (DeleteNodes_of_nothing manager_no_list [0; 5]%nat pool_a);
    [split; discriminate|discriminate].
Defined.

End ScaleDownCalls.

(** ** What a call of [IncreaseSize] can leave as the target size *)

Section ScaleUpResult.
Import Hetzner Examples Traces.

Lemma pricedIn_true_iff reg (pricings : list ServerTypeLocationPricing) :
  pricedIn reg pricings = true ↔
  ∃ price, price ∈ pricings ∧ Location_Name (Pricing_Location price) = reg.
Proof.
  induction pricings as [|price rest IH]; cbn [pricedIn].
  - split; [discriminate|]. intros (price & Hin & _). inversion Hin.
  - destruct (String.eqb_spec (Location_Name (Pricing_Location price)) reg) as [Heq|Hne].
    + split; [|reflexivity]. intros _. exists price. split; [left|exact Heq].
    + rewrite IH. split.
      * intros (p & Hin & Hp). exists p. split; [right; exact Hin|exact Hp].
      * intros (p & Hin & Hp). apply elem_of_cons in Hin as [->|Hin]; [congruence|eauto].
Qed.

(** X8: on a pool whose target size is a value of Go's [int] and whose
    [targetSize + delta] fits, a call of [IncreaseSize] that returns [nil]
    with [k] failed creations leaves a target size between
    [targetSize + delta - k] and [targetSize + delta], whatever the
    schedule: it never subtracts more than the failures, never ends below
    the target size it started from, subtracts at least one when a
    creation failed, and subtracts exactly [k] when [k ≤ 1]. *)
Theorem IncreaseSize_never_oversubtracts (m : hetznerManager) (sched : list nat)
    (delta : Z) (n : hetznerNodeGroup) (o : outcome) :
  in_range (targetSize n) → targetSize n + delta ≤ max_int →
  IncreaseSize m sched delta n = Some o → ret o = None →
  let k := Z.of_nat (failures m n 0 (Z.to_nat delta)) in
  targetSize n + delta - k ≤ targetSize (group o) ≤ targetSize n + delta ∧
  targetSize n ≤ targetSize (group o) ∧
  (0 < k → targetSize (group o) < targetSize n + delta) ∧
  (k ≤ 1 → targetSize (group o) = targetSize n + delta - k).
Proof.
  intros [Hlo Hhi] Hfits Ho Hnil k. subst k.
  destruct (IncreaseSize_returned m sched delta n o Ho)
    as [[Hne _]|(_ & Hpos & _ & d & Hd & Hd1 & ->)]; [congruence|].
  pose proof (failures_le m n 0 (Z.to_nat delta)) as Hk.
  cbn [group targetSize set_targetSize].
  rewrite wrap_in_range by (unfold in_range; lia).
  repeat split; lia.
Qed.

Lemma IncreaseSize_never_oversubtracts_witness :
  ∃ o, IncreaseSize (manager_failing [1; 3]%nat)
         [0; 1; 2; 3; 4; 1; 3; 1; 3]%nat 5 pool_b = Some o ∧
       failures (manager_failing [1; 3]%nat) pool_b 0 5 = 2%nat ∧
       3 + 5 - 2 ≤ targetSize (group o) ≤ 3 + 5 ∧
       targetSize (group o) < 3 + 5.
Proof.
  eexists. split; [reflexivity|]. split; [reflexivity|].
  assert (Hfits : in_range (targetSize pool_b)) by (split; discriminate).
  assert (Hsum : targetSize pool_b + 5 ≤ max_int) by discriminate.
  pose proof (IncreaseSize_never_oversubtracts (manager_failing [1; 3]%nat)
                [0; 1; 2; 3; 4; 1; 3; 1; 3]%nat 5 pool_b _ Hfits Hsum eq_refl eq_refl)
    as (Hrange & _ & Hless & _).
  split; [exact Hrange|]. apply Hless. reflexivity.
Defined.

(** X9: a call of [IncreaseSize] that passes its checks, the server type
    being on sale in the region, returns: when the goroutines run one after
    the other it returns [nil] and leaves [targetSize + delta] less the
    number of failed creations as the target size. *)
Theorem IncreaseSize_returns_in_turn (m : hetznerManager) (delta : Z)
    (n : hetznerNodeGroup) (serverType : ServerType) (price : ServerTypeLocationPricing) :
  0 < delta → add (targetSize n) delta ≤ maxSize n →
  getServerType m (instanceType n) = inl serverType →
  price ∈ Pricings serverType → Location_Name (Pricing_Location price) = region n →
  ∃ evs, IncreaseSize m (in_turn 0 (Z.to_nat delta)) delta n =
    Some {| ret := None;
            group := set_targetSize
                       (wrap (targetSize n + delta
                              - Z.of_nat (failures m n 0 (Z.to_nat delta)))) n;
            events := evs |}.
Proof.
  intros Hpos Hmax Htype Hin Hreg.
  apply (IncreaseSize_in_turn m delta n serverType Hpos Hmax Htype).
  apply pricedIn_true_iff. eauto.
Qed.

Lemma IncreaseSize_returns_in_turn_witness :
  ∃ evs, IncreaseSize (manager_failing [0; 2]%nat) (in_turn 0 3) 3 pool_b =
    Some {| ret := None; group := set_targetSize 4 pool_b; events := evs |}.
Proof.
  assert (Hpos : 0 < 3) by lia.
  assert (Hmax : add (targetSize pool_b) 3 ≤ maxSize pool_b) by discriminate.
  assert (Hin : {| Pricing_Location := {| Location_Name := "fsn1" |} |} ∈ Pricings cx21)
    by (right; left).
  exact (IncreaseSize_returns_in_turn (manager_failing [0; 2]%nat) 3 pool_b cx21 _
           Hpos Hmax eq_refl Hin eq_refl).
Defined.

End ScaleUpResult.

(** ** Adjusting the target size twice *)

Section Adjustments.
Import Hetzner Examples.

Lemma wrap_add_l a b : wrap (wrap a + b) = wrap (a + b).
Proof.
  replace (wrap a + b) with (wrap a - - b) by lia.
  rewrite wrap_wrap_sub. f_equal. lia.
Qed.

Lemma wrap_add_r a b : wrap (a + wrap b) = wrap (a + b).
Proof. rewrite Z.add_comm, wrap_add_l. f_equal. lia. Qed.

(** X10: two calls of [DecreaseTargetSize] in a row leave the pool as one
    call with the sum of the two deltas does, also when a sum wraps; and on
    a pool whose target size is a value of Go's [int], a call followed by
    the call with the opposite delta leaves the pool as it was. *)
Theorem DecreaseTargetSize_composes (delta1 delta2 : Z) (n : hetznerNodeGroup) :
  group (DecreaseTargetSize delta2 (group (DecreaseTargetSize delta1 n))) =
    group (DecreaseTargetSize (add delta1 delta2) n) ∧
  (in_range (targetSize n) →
   group (DecreaseTargetSize (neg delta1) (group (DecreaseTargetSize delta1 n))) = n).
Proof.
  unfold DecreaseTargetSize, set_targetSize, add, neg. cbn. split.
  - f_equal. rewrite wrap_add_l, wrap_add_r. f_equal. lia.
  - intros Hfits. destruct n as [i lo hi t r ty]. cbn in *. f_equal.
    rewrite wrap_add_l, wrap_add_r.
    replace (t + delta1 + - delta1) with t by lia. apply wrap_in_range, Hfits.
Qed.

Lemma DecreaseTargetSize_composes_witness :
  group (DecreaseTargetSize 2 (group (DecreaseTargetSize (-2) pool_a))) = pool_a.
Proof.
  assert (Hfits : in_range (targetSize pool_a)) by (split; discriminate).
  exact (proj2 (DecreaseTargetSize_composes (-2) 2 pool_a) Hfits).
Defined.

End Adjustments.

(** ** When the action waiter reports what *)

Section ActionWaiterConverse.
Import Hetzner Examples.

(** X11: [waitForServerAction] asks for the progress of the action once,
    and returns one of three things. It returns [nil] only if the errors
    channel was closed or sent [nil] no later than the timeout; it returns
    the error that wraps [err] only if the channel sent [err] no later
    than the timeout; it returns the timeout error only if the channel did
    nothing before the timeout. *)
Theorem waitForServerAction_reports_signals (m : hetznerManager) (serverName : string)
    (action : Action) :
  let result := (waitForServerAction m serverName action).2 in
  let no_later at_ := ¬ after_timeout at_ (createTimeout m) in
  (waitForServerAction m serverName action).1 = [EvWatchProgress action] ∧
  (result = None →
     ∃ at_, no_later at_ ∧ (watchProgress m action = ChanClose at_ ∨
                            watchProgress m action = ChanSend at_ None)) ∧
  (∀ err, result = Some err →
     (∃ at_ cause, err = ErrWaitingForAction serverName cause ∧ no_later at_ ∧
                   watchProgress m action = ChanSend at_ (Some cause)) ∨
     (err = ErrWaitTimeout serverName ∧
      match watchProgress m action with
      | ChanSend at_ _ | ChanClose at_ => ¬ before_timeout at_ (createTimeout m)
      | ChanSilent => True
      end)).
Proof.
  cbn zeta. unfold waitForServerAction, select, after_timeout, before_timeout.
  cbn [fst snd]. split; [reflexivity|].
  destruct (watchProgress m action) as [at_ [cause|]|at_|].
  - (* an error is sent *)
    destruct (Z.compare_spec (Z.max 0 at_) (Z.max 0 (createTimeout m)));
      try destruct (selectTie m action);
      (split; [intros H'; discriminate H'|]); intros err [= <-];
      first [left; exists at_, cause; repeat split; lia
            |right; (split; [reflexivity|lia])].
  - (* nil is sent *)
    destruct (Z.compare_spec (Z.max 0 at_) (Z.max 0 (createTimeout m)));
      try destruct (selectTie m action);
      (split; [first [intros H'; discriminate H'
                     |intros _; exists at_; split; [lia|right; reflexivity]]|]);
      intros err H'; first [discriminate H'|injection H' as <-];
      right; (split; [reflexivity|lia]).
  - (* the channel is closed *)
    destruct (Z.compare_spec (Z.max 0 at_) (Z.max 0 (createTimeout m)));
      try destruct (selectTie m action);
      (split; [first [intros H'; discriminate H'
                     |intros _; exists at_; split; [lia|left; reflexivity]]|]);
      intros err H'; first [discriminate H'|injection H' as <-];
      right; (split; [reflexivity|lia]).
  - (* nothing ever happens *)
    split; [intros H'; discriminate H'|].
    intros err [= <-]. right. split; [reflexivity|exact I].
Qed.

Lemma waitForServerAction_reports_signals_witness :
  ∃ at_, ¬ after_timeout at_ (createTimeout (manager_ok 0)) ∧
         (watchProgress (manager_ok 0) {| Action_ID := 0 |} = ChanClose at_ ∨
          watchProgress (manager_ok 0) {| Action_ID := 0 |} = ChanSend at_ None).
Proof.
  exact (proj1 (proj2 (waitForServerAction_reports_signals (manager_ok 0) "node"
                         {| Action_ID := 0 |})) eq_refl).
Defined.

End ActionWaiterConverse.

(** ** Instances, provider ids and the registry of node groups *)

Section GroupFacts.
Import Hetzner HetznerGroup Examples.

Lemma toProviderID_inj_aux a b : toProviderID a = toProviderID b → a = b.
Proof.
  unfold toProviderID, providerIDPrefix. cbn.
  intros [= H]. exact (pretty_Z_inj a b H).
Qed.

(** X12: provider ids identify servers: [toProviderID] maps different
    server ids to different provider ids, each of which starts with the
    provider's prefix (so none is empty). *)
Theorem toProviderID_identifies (a b : Z) :
  (toProviderID a = toProviderID b ↔ a = b) ∧
  (∃ rest, toProviderID a = "hcloud://" +:+ rest) ∧
  toProviderID a ≠ "".
Proof.
  split; [|split].
  - split; [apply toProviderID_inj_aux|intros ->; reflexivity].
  - exists (pretty a). reflexivity.
  - discriminate.
Qed.

(** X13: [Nodes] returns no instances and an error that wraps the cause
    when the servers of the group cannot be had. Otherwise it returns one
    instance for each server, in the order of the servers: its id is the
    provider id of the server, which is not empty, and its status is that
    of [toInstanceStatus], [nil] exactly for a server without status.
    Servers with different ids give instances with different ids. *)
Theorem Nodes_instances (getServersByNodeGroupName : string → list Server + error)
    (n : hetznerNodeGroup) :
  (∀ cause, getServersByNodeGroupName (id n) = inr cause →
     Nodes getServersByNodeGroupName n = (None, Some (ErrFailedToGetServers cause))) ∧
  (∀ servers', getServersByNodeGroupName (id n) = inl servers' →
     ∃ instances,
       Nodes getServersByNodeGroupName n = (Some instances, None) ∧
       length instances = length servers' ∧
       (∀ i vm, servers' !! i = Some vm →
          ∃ instance, instances !! i = Some instance ∧
            Id instance = toProviderID (Server_ID vm) ∧ Id instance ≠ "" ∧
            Status instance = toInstanceStatus (Server_Status vm) ∧
            (Status instance = None ↔ Server_Status vm = "")) ∧
       (NoDup (Server_ID <$> servers') → NoDup (Id <$> instances))).
Proof.
  unfold Nodes. split.
  - intros cause ->. reflexivity.
  - intros servers' ->. exists (toInstance <$> servers').
    split; [reflexivity|]. split; [apply length_fmap|]. split.
    + intros i vm Hvm. exists (toInstance vm).
      rewrite list_lookup_fmap, Hvm. split; [reflexivity|]. cbn.
      split; [reflexivity|]. split; [discriminate|]. split; [reflexivity|].
      apply toInstanceStatus_nil_iff.
    + intros Hnodup. rewrite <- list_fmap_compose.
      assert (Heq : Id ∘ toInstance = toProviderID ∘ Server_ID) by reflexivity.
      rewrite Heq, list_fmap_compose.
      apply NoDup_fmap_2_strong; [|exact Hnodup].
      intros a b _ _. apply toProviderID_inj_aux.
Qed.

Lemma Nodes_instances_witness :
  ∃ instances,
    Nodes (λ _, inl [server 7; server 8]) pool_a = (Some instances, None) ∧
    Id <$> instances = ["hcloud://7"; "hcloud://8"] ∧
    NoDup (Id <$> instances).
Proof.
  destruct (proj2 (Nodes_instances (λ _, inl [server 7; server 8]) pool_a)
              [server 7; server 8] eq_refl)
    as (instances & Hnodes & _ & _ & Hnodup).
  exists instances. split; [exact Hnodes|].
  injection Hnodes as <-. split; [reflexivity|].
  apply Hnodup. cbn. repeat constructor; rewrite ?elem_of_cons, ?elem_of_nil;
    intros Hin; repeat destruct Hin as [Hin|Hin]; try discriminate Hin; exact Hin.
Defined.

(** X14: [Create] registers the node group under its identifier and
    returns it with the not-implemented error; afterwards [Exist] holds of
    it, and of every other node group exactly if it held before. No node
    group exists in an empty registry. *)
Theorem Create_then_Exist (nodeGroups : gmap string hetznerNodeGroup)
    (n : hetznerNodeGroup) :
  let created := Create nodeGroups n in
  created.2 = (n, Some ErrNotImplemented) ∧
  created.1 !! id n = Some n ∧
  Exist created.1 n = true ∧
  (∀ other, id other ≠ id n → Exist created.1 other = Exist nodeGroups other) ∧
  (∀ other, id other = id n → Exist created.1 other = true) ∧
  Exist ∅ n = false.
Proof.
  cbn zeta. unfold Create, Exist. cbn [fst snd].
  split; [reflexivity|]. split; [apply lookup_insert_eq|].
  split; [rewrite lookup_insert_eq; reflexivity|]. split; [|split].
  - intros other Hne. rewrite lookup_insert_ne by congruence. reflexivity.
  - intros other ->. rewrite lookup_insert_eq. reflexivity.
  - reflexivity.
Qed.

Lemma Create_then_Exist_witness :
  Exist (Create ∅ pool_a).1 pool_b = Exist ∅ pool_b.
Proof.
  apply (proj1 (proj2 (proj2 (proj2 (Create_then_Exist ∅ pool_a))))).
  discriminate.
Defined.

End GroupFacts.

(** ** The labels of a node group *)

Section LabelFacts.
Import Hetzner HetznerLabels Examples.

Variable ServerType_Architecture : ServerType → Architecture.


End LabelFacts.


(** ** What [ExtractKubeEnv] returns, and [Var] on it *)

Section KubeEnvMore.
Import Gce GceExamples MoreGceExamples.

(** X16: when the first metadata item with key kube-env has a value,
    [ExtractKubeEnv] returns what [ParseKubeEnv] makes of that value,
    whatever items come before and after it: the decoded map and no error
    when the YAML decoder accepts the value, and no map and the
    unmarshalling error when it does not. *)
Theorem ExtractKubeEnv_parses_first_item
    (unmarshal : string → gmap string string + string)
    (template : InstanceTemplate) (properties : InstanceProperties)
    (metadata : Metadata) (before after : list MetadataItems)
    (item : MetadataItems) (value : string) :
  Properties template = Some properties →
  Properties_Metadata properties = Some metadata →
  Items metadata = before ++ item :: after →
  (∀ earlier, earlier ∈ before → Key earlier ≠ kubeEnvKey) →
  Key item = kubeEnvKey → Value item = Some value →
  ExtractKubeEnv unmarshal (Some template) = ParseKubeEnv unmarshal value ∧
  (∀ kubeEnv, unmarshal value = inl kubeEnv →
     ExtractKubeEnv unmarshal (Some template) = (Some kubeEnv, None)) ∧
  (∀ msg, unmarshal value = inr msg →
     ExtractKubeEnv unmarshal (Some template) = (None, Some (ErrUnmarshal msg))).
Proof.
  intros Hp Hm Hitems Hbefore Hkey Hvalue.
  assert (Hparse : ExtractKubeEnv unmarshal (Some template) = ParseKubeEnv unmarshal value).
  { unfold ExtractKubeEnv. rewrite Hp, Hm, Hitems, extractFromItems_skip by exact Hbefore.
    cbn [extractFromItems]. rewrite Hkey, String.eqb_refl, Hvalue. reflexivity. }
  rewrite Hparse. unfold ParseKubeEnv.
  split; [reflexivity|]. split; intros ? ->; reflexivity.
Qed.

Lemma ExtractKubeEnv_parses_first_item_witness :
  ExtractKubeEnv yaml_one_entry (Some template_kube_env_twice) =
    (Some {[ "CLUSTER_NAME" := "demo" ]}, None).
Proof.
  refine (proj1 (proj2 (ExtractKubeEnv_parses_first_item yaml_one_entry
                          template_kube_env_twice _ _ []
                          [ {| Key := "kube-env"; Value := None |} ]
                          {| Key := "kube-env"; Value := Some "CLUSTER_NAME: demo" |}
                          "CLUSTER_NAME: demo" eq_refl eq_refl eq_refl _ eq_refl eq_refl))
            _ eq_refl).
  intros earlier Hin. inversion Hin.
Defined.

Lemma extractFromItems_map_or_error unmarshal (items : list MetadataItems) :
  (extractFromItems unmarshal items).1 = None ∨
  (extractFromItems unmarshal items).2 = None.
Proof.
  induction items as [|item rest IH]; [left; reflexivity|].
  cbn [extractFromItems].
  destruct (String.eqb (Key item) kubeEnvKey); [|exact IH].
  destruct (Value item) as [value|]; [|left; reflexivity].
  unfold ParseKubeEnv. destruct (unmarshal value); [right|left]; reflexivity.
Qed.

(** X17: [ExtractKubeEnv] never returns a map together with an error; and
    [Var] on what it returns reports a variable as found exactly when a map
    was returned that has the variable, and then returns its value. On the
    [nil] map of a template without kube-env, or of a failed call, [Var]
    reports every variable as missing, with the empty string. *)
Theorem ExtractKubeEnv_then_Var (unmarshal : string → gmap string string + string)
    (template : option InstanceTemplate) (name : string) :
  let kubeEnv := (ExtractKubeEnv unmarshal template).1 in
  let err := (ExtractKubeEnv unmarshal template).2 in
  (kubeEnv = None ∨ err = None) ∧
  (err ≠ None → Var kubeEnv name = ("", false)) ∧
  (∀ value, Var kubeEnv name = (value, true) ↔
            ∃ variables, kubeEnv = Some variables ∧ variables !! name = Some value) ∧
  ((Var kubeEnv name).2 = false → (Var kubeEnv name).1 = "").
Proof.
  cbn zeta.
  assert (Hone : (ExtractKubeEnv unmarshal template).1 = None ∨
                 (ExtractKubeEnv unmarshal template).2 = None).
  { unfold ExtractKubeEnv.
    destruct template as [template|]; [|left; reflexivity].
    destruct (Properties template) as [properties|]; [|left; reflexivity].
    destruct (Properties_Metadata properties) as [metadata|]; [|left; reflexivity].
    apply extractFromItems_map_or_error. }
  split; [exact Hone|].
  destruct (ExtractKubeEnv unmarshal template) as [[variables|] err]; cbn [fst snd] in *.
  - split; [destruct Hone; congruence|]. unfold Var.
    destruct (variables !! name) as [v|] eqn:Hv; split.
    + intros value. split.
      * intros [= <-]. exists variables. split; [reflexivity|exact Hv].
      * intros (vs & [= <-] & Hvs). congruence.
    + discriminate.
    + intros value. split; [discriminate|]. intros (vs & [= <-] & Hvs). congruence.
    + reflexivity.
  - split; [reflexivity|]. split; [|reflexivity].
    intros value. split; [discriminate|]. intros (vs & [=] & _).
Qed.

Lemma ExtractKubeEnv_then_Var_witness :
  Var (ExtractKubeEnv yaml_one_entry (Some template_kube_env_twice)).1 "CLUSTER_NAME" =
    ("demo", true) ∧
  Var (ExtractKubeEnv yaml_refusing (Some template_kube_env_twice)).1 "CLUSTER_NAME" =
    ("", false).
Proof.
  split.
  - apply (proj1 (proj2 (proj2 (ExtractKubeEnv_then_Var yaml_one_entry
                                  (Some template_kube_env_twice) "CLUSTER_NAME")))).
    eexists. split; reflexivity.
  - apply (proj1 (proj2 (ExtractKubeEnv_then_Var yaml_refusing
                           (Some template_kube_env_twice) "CLUSTER_NAME"))).
    discriminate.
Defined.

End KubeEnvMore.
